(** * ffmpeg_pipeline.py: keyframe-aligned trimming

    A shallow embedding of [src/ffmpeg_pipeline.py] and the properties of
    its keyframe locator, its path escaping, its command builder and its
    runner.

    Python's [float] is IEEE 754 binary64.  Timestamps are therefore
    modelled by [spec_float] with [prec = 53] and [emax = 1024], so that
    comparisons with NaN, signed zeros, infinities and the rounding of
    [+] and [-] are those of the interpreter. *)

From Stdlib Require Import ZArith Lia Bool List.
From Stdlib Require Import Strings.Ascii Strings.String.
From Stdlib Require Import Numbers.DecimalString.
From Stdlib Require Import Floats.SpecFloat.
Import ListNotations.

Local Open Scope Z_scope.

(** ** Binary64 arithmetic *)

Definition float : Type := spec_float.

Module F64.

Definition prec : Z := 53.
Definition emax : Z := 1024.

Definition add : float -> float -> float := SFadd prec emax.
Definition sub : float -> float -> float := SFsub prec emax.
Definition div : float -> float -> float := SFdiv prec emax.

(** Python's [a < b], [a <= b], [a > b], [a >= b] on floats.  Every
    comparison with NaN is [False]. *)
Definition ltb (a b : float) : bool := SFltb a b.
Definition leb (a b : float) : bool := SFleb a b.
Definition gtb (a b : float) : bool := SFltb b a.
Definition geb (a b : float) : bool := SFleb b a.

Definition is_nan (a : float) : bool :=
  match a with S754_nan => true | _ => false end.

(** A value that a binary64 variable can hold. *)
Definition valid (a : float) : bool := valid_binary prec emax a.

(** The float nearest to the integer [n]. *)
Definition of_Z (n : Z) : float := binary_normalize prec emax n 0 false.

(** The float nearest to [n / d]: what [float("n/d as a decimal")]
    returns when [n] and [d] are small integers, both conversions being
    correctly rounded. *)
Definition of_ratio (n d : Z) : float := div (of_Z n) (of_Z d).

End F64.

(** The literals of the program and of the scenarios, by their bits. *)
Definition f0_0 : float := S754_zero false.
Definition f0_1 : float := S754_finite false 7205759403792794 (-56).
Definition f1_0 : float := S754_finite false 4503599627370496 (-52).
Definition f1_05 : float := S754_finite false 4728779608739021 (-52).
Definition f2_0 : float := S754_finite false 4503599627370496 (-51).
Definition f3_0 : float := S754_finite false 6755399441055744 (-51).
Definition f4_0 : float := S754_finite false 4503599627370496 (-50).
Definition f5_0 : float := S754_finite false 5629499534213120 (-50).
Definition f6_0 : float := S754_finite false 6755399441055744 (-50).
Definition f7_0 : float := S754_finite false 7881299347898368 (-50).
Definition f8_0 : float := S754_finite false 4503599627370496 (-49).
Definition f10_0 : float := S754_finite false 5629499534213120 (-49).
(** 2^53, where the spacing of doubles is 2. *)
Definition f2p53 : float := S754_finite false 4503599627370496 1.

(** ** Exceptions and fallible results *)

Inductive exn : Type :=
| IndexError
| SystemExit (msg : string)
| OSError
| CalledProcessError (returncode : Z) (cmd : list string).

Inductive result (A : Type) : Type :=
| Ok (a : A)
| Raise (e : exn).
Arguments Ok {A} a.
Arguments Raise {A} e.

Definition rbind {A B} (r : result A) (k : A -> result B) : result B :=
  match r with
  | Ok a => k a
  | Raise e => Raise e
  end.

Notation "x <-? c ;; k" := (rbind c (fun x => k))
  (at level 61, c at next level, right associativity).

(** ** Python builtins used by the locator *)

Module Py.

(** [max(a, b)]: the first argument is kept unless the second compares
    strictly greater. *)
Definition max2 (a b : float) : float := if F64.gtb b a then b else a.

(** [max(iterable, default=d)]: the running maximum is replaced by an
    item only when [item > maximum]. *)
Definition max_default (l : list float) (d : float) : float :=
  match l with
  | [] => d
  | x :: r => fold_left (fun cur item => if F64.gtb item cur then item else cur) r x
  end.

(** [min(iterable, default=d)]: replaced only when [item < minimum]. *)
Definition min_default (l : list float) (d : float) : float :=
  match l with
  | [] => d
  | x :: r => fold_left (fun cur item => if F64.ltb item cur then item else cur) r x
  end.

(** [l[-1]]: raises [IndexError] on the empty list. *)
Fixpoint index_last {A} (l : list A) : result A :=
  match l with
  | [] => Raise IndexError
  | [x] => Ok x
  | _ :: r => index_last r
  end.

(** Truth value of a list: non-empty. *)
Definition truthy {A} (l : list A) : bool :=
  match l with [] => false | _ => true end.

End Py.

(** ** The keyframe locator *)

(** Docstring: "Nearest keyframe <= t."
    [max((kf for kf in times if kf <= t), default=0.0)] *)
Definition find_keyframe_before_or_equal (times : list float) (t : float) : float :=
  Py.max_default (filter (fun kf => F64.leb kf t) times) f0_0.

(** Docstring: "Nearest keyframe >= t."
    [min((kf for kf in times if kf >= t), default=times[-1] if times else t)].
    The default is evaluated before [min] is called; [times[-1]] can
    raise. *)
Definition find_keyframe_after_or_equal (times : list float) (t : float) : result float :=
  default <-? (if Py.truthy times then Py.index_last times else Ok t) ;;
  Ok (Py.min_default (filter (fun kf => F64.geb kf t) times) default).

Record AlignedRange : Type := mkAligned {
  ar_start : float;
  ar_end : float;
  ar_duration : float
}.

(** Lines 128-137 of [main]: from the keyframes and the requested range to
    [start_kf], [end_kf] and [duration]. *)
Definition locate (keyframes : list float) (start end_ : float) : result AlignedRange :=
  range <-? (if Py.truthy keyframes then
               let start_kf := find_keyframe_before_or_equal keyframes start in
               end_kf <-? find_keyframe_after_or_equal keyframes end_ ;;
               let end_kf := if F64.leb end_kf start_kf
                             then Py.max2 end_ (F64.add start_kf f0_1)
                             else end_kf in
               Ok (start_kf, end_kf)
             else Ok (start, end_)) ;;
  let '(start_kf, end_kf) := range in
  let duration := Py.max2 f0_1 (F64.sub end_kf start_kf) in
  Ok (mkAligned start_kf end_kf duration).


(** ** Strings

    A [str] is modelled by [string], one [ascii] per character.  The
    non-ASCII characters of the messages stand in the literals as their
    UTF-8 bytes; the messages are concatenated and printed, never indexed. *)

Local Open Scope string_scope.

Module Str.

(** [c in s], for a one-character [c]. *)
Fixpoint contains (c : ascii) (s : string) : bool :=
  match s with
  | EmptyString => false
  | String a r => Ascii.eqb a c || contains c r
  end.

(** [s.replace(old, new)], for a one-character [old]: every occurrence. *)
Fixpoint replace (old : ascii) (new : string) (s : string) : string :=
  match s with
  | EmptyString => EmptyString
  | String a r => if Ascii.eqb a old then new ++ replace old new r
                  else String a (replace old new r)
  end.

(** [s.replace(old, new, 1)]: the first occurrence only. *)
Fixpoint replace_first (old : ascii) (new : string) (s : string) : string :=
  match s with
  | EmptyString => EmptyString
  | String a r => if Ascii.eqb a old then new ++ r
                  else String a (replace_first old new r)
  end.

(** [s[i:j]] for [0 <= i <= j]; out-of-range bounds are clipped. *)
Definition slice (i j : nat) (s : string) : string := substring i (j - i) s.

(** [s.split(sep)], for a one-character [sep]. *)
Fixpoint split (sep : ascii) (s : string) : list string :=
  match s with
  | EmptyString => [EmptyString]
  | String a r =>
      if Ascii.eqb a sep then EmptyString :: split sep r
      else match split sep r with
           | h :: t => String a h :: t
           | [] => [String a EmptyString]
           end
  end.

(** [s.endswith(c)], for a one-character [c]. *)
Fixpoint endswith (c : ascii) (s : string) : bool :=
  match s with
  | EmptyString => false
  | String a EmptyString => Ascii.eqb a c
  | String _ r => endswith c r
  end.

(** [sep.join(l)] *)
Definition join (sep : string) (l : list string) : string := String.concat sep l.

(** Truth value of a string: non-empty. *)
Definition truthy (s : string) : bool :=
  match s with EmptyString => false | _ => true end.

(** [str(n)] for an [int]. *)
Definition of_int (n : Z) : string := NilZero.string_of_int (Z.to_int n).

Definition newline : string := String (ascii_of_nat 10) EmptyString.

End Str.

(** An ASCII letter, as in a drive name. *)
Definition is_letter (c : ascii) : bool :=
  let n := nat_of_ascii c in
  ((65 <=? n)%nat && (n <=? 90)%nat) || ((97 <=? n)%nat && (n <=? 122)%nat).

Definition backslash : ascii := "\"%char.
Definition slash : ascii := "/"%char.
Definition colon : ascii := ":"%char.

(** ** [os.path] on a POSIX system

    [os.path.abspath] is library code: [posixpath.abspath] joins a relative
    path to the process's working directory and normalises the result. *)

Module PosixPath.

Definition isabs (p : string) : bool := String.prefix "/" p.

(** [join(a, b)] *)
Definition join (a b : string) : string :=
  if isabs b then b
  else if negb (Str.truthy a) || Str.endswith slash a then a ++ b
  else a ++ "/" ++ b.

(** One round of the loop of [normpath]; [new_comps] is kept with its last
    element first. *)
Definition normpath_step (initial_slashes : nat) (new_comps : list string)
                         (comp : string) : list string :=
  if String.eqb comp EmptyString || String.eqb comp "." then new_comps
  else if negb (String.eqb comp "..")
          || (Nat.eqb initial_slashes 0 && negb (Py.truthy new_comps))
          || match new_comps with
             | last :: _ => String.eqb last ".."
             | [] => false
             end
       then comp :: new_comps
       else match new_comps with
            | _ :: rest => rest
            | [] => []
            end.

Definition normpath (path : string) : string :=
  if String.eqb path EmptyString then "."
  else
    let initial_slashes :=
      if String.prefix "/" path then
        if String.prefix "//" path && negb (String.prefix "///" path)
        then 2%nat else 1%nat
      else 0%nat in
    let comps := Str.split slash path in
    let new_comps := rev (fold_left (normpath_step initial_slashes) comps []) in
    let path := Str.join "/" new_comps in
    let path := match initial_slashes with
                | 0%nat => path
                | 1%nat => "/" ++ path
                | _ => "//" ++ path
                end in
    if Str.truthy path then path else ".".

(** [abspath(path)] in a process whose working directory is [cwd]. *)
Definition abspath (cwd : string) (path : string) : string :=
  normpath (if isabs path then path else join cwd path).

End PosixPath.

(** ** Formatting *)

(** [n / d] rounded to the nearest integer, ties to even. *)
Definition div_half_even (n d : Z) : Z :=
  let q := (n / d)%Z in
  match (2 * (n mod d) ?= d)%Z with
  | Lt => q
  | Gt => (q + 1)%Z
  | Eq => if Z.even q then q else (q + 1)%Z
  end.

(** Three decimal digits of [0 <= n < 1000]. *)
Definition digits3 (n : Z) : string :=
  Str.of_int (n / 100) ++ Str.of_int ((n / 10) mod 10) ++ Str.of_int (n mod 10).

(** [f"{x:.3f}"]: the exact value of the double, rounded half-even to three
    decimals. *)
Definition format_3f (x : float) : string :=
  match x with
  | S754_nan => "nan"
  | S754_infinity s => if s then "-inf" else "inf"
  | S754_zero s => if s then "-0.000" else "0.000"
  | S754_finite s m e =>
      let thousandths :=
        match e with
        | Zneg p => div_half_even (Zpos m * 1000) (2 ^ Zpos p)
        | _ => (Zpos m * 1000 * 2 ^ e)%Z
        end in
      (if s then "-" else EmptyString) ++ Str.of_int (thousandths / 1000) ++ "."
        ++ digits3 (thousandths mod 1000)
  end.

(** ** Paths and the encoder's argument list

    [abspath] stands for [os.path.abspath] in the running process; it
    depends on the platform and on the working directory. *)

Section Builder.

Variable abspath : string -> string.

(** Docstring: "Convert to absolute path with forward slashes for FFmpeg.
    For subtitles filter, escape colon after drive letter."  The test
    carries the comment "Example: D:/something". *)
Definition fix_path_for_ffmpeg (path : string) : string :=
  let abs_path := Str.replace backslash "/" (abspath path) in
  if Str.contains colon (Str.slice 1 3 abs_path)
  then Str.replace_first colon "\:" abs_path
  else abs_path.

Definition scale_pad : string :=
  "scale=1080:1920:force_original_aspect_ratio=decrease," ++
  "pad=1080:1920:(ow-iw)/2:(oh-ih)/2,setsar=1".

(** [if srt_path:] holds for a non-empty string only. *)
Definition video_filter (srt_path : option string) : string :=
  match srt_path with
  | Some p =>
      if Str.truthy p then
        let srt_fixed := fix_path_for_ffmpeg p in
        let subtitles :=
          "subtitles='" ++ srt_fixed ++ "':" ++
          "force_style='Fontsize=36,PrimaryColour=&HFFFFFF&'" in
        scale_pad ++ "," ++ subtitles
      else scale_pad
  | None => scale_pad
  end.

(** Docstring: "Build FFmpeg pipeline command."  The defaults [crf = 18]
    and [preset = "veryfast"] are passed by the caller. *)
Definition build_ffmpeg_command (input_path : string) (srt_path : option string)
    (start_kf duration : float) (output_path : string)
    (crf : Z) (preset : string) : list string :=
  let vf := video_filter srt_path in
  [ "ffmpeg"; "-y";
    "-ss"; format_3f start_kf;
    "-i"; Str.replace backslash "/" (abspath input_path);
    "-t"; format_3f duration;
    "-vf"; vf;
    "-af"; "loudnorm=I=-16:TP=-1.5:LRA=11";
    "-c:v"; "libx264";
    "-crf"; Str.of_int crf;
    "-preset"; preset;
    "-r"; "30";
    "-c:a"; "aac";
    "-b:a"; "192k";
    Str.replace backslash "/" (abspath output_path) ].

End Builder.

(** ** The process and its surroundings

    What the program reads from outside: [os.path.abspath] and
    [os.path.isfile] of the running process, the Prober and the Encoder.
    The Prober's answer is the value [get_keyframe_times] returns, that is
    the sorted keyframe timestamps decoded from ffprobe's JSON, or the
    exception that surfaces.  The Encoder's answer is the lines of its
    combined output and its return code, or the exception [Popen] raises
    when the child cannot be started. *)

Record World : Type := mkWorld {
  w_abspath : string -> string;
  w_isfile : string -> bool;
  w_prober : list string -> result (list float);
  w_popen : list string -> result (list string * Z)
}.

(** A computation reads the world, appends to standard output and returns
    or raises. *)
Definition M (A : Type) : Type := World -> list string -> result A * list string.

Definition ret {A} (a : A) : M A := fun _ out => (Ok a, out).

Definition raise {A} (e : exn) : M A := fun _ out => (Raise e, out).

Definition bind {A B} (c : M A) (k : A -> M B) : M B :=
  fun w out =>
    match c w out with
    | (Ok a, out') => k a w out'
    | (Raise e, out') => (Raise e, out')
    end.

Definition lift {A} (r : result A) : M A := fun _ out => (r, out).

Notation "x <- c ;; k" := (bind c (fun x => k))
  (at level 61, c at next level, right associativity).
Notation "c ;;; k" := (bind c (fun _ => k))
  (at level 61, right associativity).

(** [print(s, end=e)] *)
Definition print_end (s e : string) : M unit := fun _ out => (Ok tt, (out ++ [(s ++ e)%string])%list).

(** [print(s)] *)
Definition print (s : string) : M unit := print_end s Str.newline.

(** [for x in l: body(x)] *)
Fixpoint for_each {A} (l : list A) (body : A -> M unit) : M unit :=
  match l with
  | [] => ret tt
  | x :: r => body x ;;; for_each r body
  end.

(** [try: body  except CalledProcessError: handler] *)
Definition try_except_CalledProcessError {A} (body handler : M A) : M A :=
  fun w out =>
    match body w out with
    | (Raise (CalledProcessError _ _), out') => handler w out'
    | other => other
    end.

(** [subprocess.Popen(cmd, ...)], the iteration over [process.stdout] and
    [process.wait()] see the child through its lines and its return code. *)
Definition Popen (cmd : list string) : M (list string * Z) :=
  fun w out => (w_popen w cmd, out).

(** What [print("\n[CMD]", " ".join(cmd), "\n")] writes. *)
Definition cmd_banner (cmd : list string) : string :=
  (Str.newline ++ "[CMD]" ++ " " ++ Str.join " " cmd ++ " " ++ Str.newline)
  ++ Str.newline.

(** Docstring: "Run subprocess and stream FFmpeg output live." *)
Definition run_cmd (cmd : list string) : M unit :=
  print (Str.newline ++ "[CMD]" ++ " " ++ Str.join " " cmd ++ " " ++ Str.newline) ;;;
  process <- Popen cmd ;;
  let '(stdout, returncode) := process in
  for_each stdout (fun line => print_end line EmptyString) ;;;
  if negb (Z.eqb returncode 0) then raise (CalledProcessError returncode cmd)
  else ret tt.

(** Docstring: "Return sorted keyframe timestamps from ffprobe."  The
    command is built here; its run, the JSON decoding and the sort are the
    Prober's answer. *)
Definition get_keyframe_times (input_path : string) : M (list float) :=
  fun w out =>
    let cmd := [ "ffprobe"; "-v"; "quiet";
                 "-select_streams"; "v";
                 "-show_entries"; "frame=pkt_pts_time,key_frame";
                 "-of"; "json";
                 Str.replace backslash "/" (w_abspath w input_path) ] in
    (w_prober w cmd, out).

(** The parsed command line. *)
Record Args : Type := mkArgs {
  a_input : string;
  a_start : float;
  a_end : float;
  a_srt : option string;
  a_output : string
}.

Definition msg_done (output : string) : string :=
  "✅ Done! Output saved to: " ++ output.

Definition msg_failed : string :=
  "❌ FFmpeg failed — check the command above for errors.".

(** [args.srt and not os.path.isfile(args.srt)] *)
Definition srt_missing (w : World) (srt : option string) : bool :=
  match srt with
  | Some p => Str.truthy p && negb (w_isfile w p)
  | None => false
  end.

Definition main (args : Args) : M unit :=
  fun w =>
    (if negb (w_isfile w (a_input args)) then
       raise (SystemExit ("❌ Input file not found: " ++ a_input args))
     else if srt_missing w (a_srt args) then
       raise (SystemExit ("❌ SRT file not found: " ++
                          match a_srt args with Some p => p | None => EmptyString end))
     else
       print "🔍 Scanning keyframes..." ;;;
       keyframes <- get_keyframe_times (a_input args) ;;
       (if Py.truthy keyframes then ret tt
        else print "⚠ No keyframes found — using exact times.") ;;;
       aligned <- lift (locate keyframes (a_start args) (a_end args)) ;;
       let start_kf := ar_start aligned in
       let end_kf := ar_end aligned in
       let duration := ar_duration aligned in
       print ("🎯 Requested: " ++ format_3f (a_start args) ++ "s → " ++
              format_3f (a_end args) ++ "s") ;;;
       print ("🎯 Keyframe-aligned: " ++ format_3f start_kf ++ "s → " ++
              format_3f end_kf ++ "s (Duration: " ++ format_3f duration ++ "s)") ;;;
       let cmd := build_ffmpeg_command (w_abspath w) (a_input args) (a_srt args)
                    start_kf duration (a_output args) 18 "veryfast" in
       try_except_CalledProcessError
         (run_cmd cmd ;;; print (msg_done (a_output args)))
         (print msg_failed)) w.

(** A POSIX process in the directory [cwd] where every file exists, the
    Prober answers [keyframes] and the Encoder prints [lines] and exits
    with [returncode]. *)
Definition posix_world (cwd : string) (keyframes : list float)
                       (lines : list string) (returncode : Z) : World :=
  mkWorld (PosixPath.abspath cwd) (fun _ => true)
          (fun _ => Ok keyframes) (fun _ => Ok (lines, returncode)).

Definition demo_args : Args :=
  mkArgs "in.mp4" f1_0 f1_05 (Some "a.srt") "out.mp4".

Local Close Scope string_scope.

(** ** Vocabulary of the locator's properties *)

(** Non-decreasing, as [sorted] leaves a list of numbers. *)
Fixpoint is_sorted (l : list float) : bool :=
  match l with
  | a :: (b :: _) as r => F64.leb a b && is_sorted r
  | _ => true
  end.

Definition no_nan (l : list float) : bool :=
  forallb (fun x => negb (F64.is_nan x)) l.

(** A timestamp of the data model: a non-negative binary64 number, here
    below 2^49 seconds. *)
Definition timestamp (x : float) : bool :=
  match x with
  | S754_zero _ => true
  | S754_finite false m e =>
      F64.valid x && (Zpos (digits2_pos m) + e <=? 49)
  | _ => false
  end.

(** [m] is a maximum of [K]. *)
Definition is_max (K : list float) (m : float) : Prop :=
  In m K /\ forall k, In k K -> F64.leb k m = true.

(** "an element of K that is <= s, or exactly 0.0 if no such element
    exists" *)
Definition keyframe_le_or_zero (K : list float) (s x : float) : Prop :=
  (In x K /\ F64.leb x s = true) \/
  ((forall k, In k K -> F64.leb k s = false) /\ x = f0_0).

(** "an element of K that is >= e, or the maximum of K if no such element
    exists" *)
Definition keyframe_ge_or_max (K : list float) (e x : float) : Prop :=
  (In x K /\ F64.geb x e = true) \/
  ((forall k, In k K -> F64.geb k e = false) /\ is_max K x).

(** The two properties of the aligned range that the locator is checked
    against. *)
Definition aligned_end_is_keyframe (K : list float) (s e : float) : Prop :=
  exists r, locate K s e = Ok r /\ keyframe_ge_or_max K e (ar_end r).

Definition end_after_start (K : list float) (s e : float) : Prop :=
  exists r, locate K s e = Ok r /\ F64.gtb (ar_end r) (ar_start r) = true.

(** Sequences and values of the scenarios. *)
Definition keyframes_every_2s : list float := [f0_0; f2_0; f4_0; f6_0].
Definition keyframes_sparse : list float := [f0_0; f10_0].

(** ** Vocabulary of the further properties *)

(** [s.count(c)], for a one-character [c]. *)
Fixpoint count_char (c : ascii) (s : string) : nat :=
  match s with
  | EmptyString => 0%nat
  | String a r => ((if Ascii.eqb a c then 1 else 0) + count_char c r)%nat
  end.

(** The command line with [--srt] replaced. *)
Definition with_srt (args : Args) (srt : option string) : Args :=
  mkArgs (a_input args) (a_start args) (a_end args) srt (a_output args).

(** * Properties *)

(** ** The literals *)

(** Each literal is the double nearest to the decimal it stands for, and a
    valid binary64 value. *)
Example literals_are_nearest :
  [F64.of_ratio 1 10; F64.of_Z 1; F64.of_ratio 105 100; F64.of_Z 2; F64.of_Z 3;
   F64.of_Z 4; F64.of_Z 5; F64.of_Z 6; F64.of_Z 7; F64.of_Z 8; F64.of_Z 10;
   F64.of_Z (2 ^ 53)]
  = [f0_1; f1_0; f1_05; f2_0; f3_0; f4_0; f5_0; f6_0; f7_0; f8_0; f10_0; f2p53].
Proof. vm_compute. reflexivity. Qed.

Example literals_are_valid :
  forallb F64.valid
    [f0_0; f0_1; f1_0; f1_05; f2_0; f3_0; f4_0; f5_0; f6_0; f7_0; f8_0; f10_0; f2p53]
  = true.
Proof. vm_compute. reflexivity. Qed.

(** ** The order on binary64 values *)

Ltac fold_pos_compare :=
  repeat match goal with
  | |- context [Pos.compare_cont Eq ?p ?q] =>
      change (Pos.compare_cont Eq p q) with (Pos.compare p q)
  | H : context [Pos.compare_cont Eq ?p ?q] |- _ =>
      change (Pos.compare_cont Eq p q) with (Pos.compare p q) in H
  end.

Ltac split_compare :=
  repeat match goal with
  | H : context [Z.compare ?p ?q] |- _ => destruct (Z.compare_spec p q)
  | |- context [Z.compare ?p ?q] => destruct (Z.compare_spec p q)
  | H : context [Pos.compare ?p ?q] |- _ => destruct (Pos.compare_spec p q)
  | |- context [Pos.compare ?p ?q] => destruct (Pos.compare_spec p q)
  end.

Section FloatOrder.

Lemma SFcompare_antisym (a b : float) :
  SFcompare b a = option_map CompOpp (SFcompare a b).
Proof.
  destruct a as [sa|sa| |sa ma ea], b as [sb|sb| |sb mb eb]; simpl;
    try reflexivity;
    try (destruct sa; reflexivity); try (destruct sb; reflexivity);
    try (destruct sa, sb; reflexivity).
  change (Pos.compare_cont Eq mb ma) with (Pos.compare mb ma).
  change (Pos.compare_cont Eq ma mb) with (Pos.compare ma mb).
  rewrite (Z.compare_antisym ea eb), (Pos.compare_antisym ma mb).
  destruct sa, sb; simpl; try reflexivity;
    destruct (ea ?= eb); simpl; try reflexivity;
    destruct (ma ?= mb)%positive; reflexivity.
Qed.

Lemma SFcompare_refl (a : float) :
  F64.is_nan a = false -> SFcompare a a = Some Eq.
Proof.
  destruct a as [s|s| |s m e]; simpl; intros H; try discriminate;
    try (destruct s; reflexivity).
  change (Pos.compare_cont Eq m m) with (Pos.compare m m).
  rewrite Z.compare_refl, Pos.compare_refl. destruct s; reflexivity.
Qed.

Lemma SFcompare_defined (a b : float) :
  F64.is_nan a = false -> F64.is_nan b = false ->
  exists c, SFcompare a b = Some c.
Proof.
  destruct a, b; simpl; intros; try discriminate; eauto.
Qed.

(** Composition of two comparisons neither of which is [Gt]: the
    comparison is lexicographic on sign, exponent and mantissa, so it
    composes on every [spec_float], canonical or not. *)
Lemma SFcompare_trans (a b c : float) (x y : comparison) :
  SFcompare a b = Some x -> SFcompare b c = Some y ->
  x <> Gt -> y <> Gt ->
  SFcompare a c = Some (match x with Eq => y | _ => Lt end).
Proof.
  destruct a as [sa|sa| |sa ma ea], b as [sb|sb| |sb mb eb],
           c as [sc|sc| |sc mc ec]; simpl; intros Hx Hy Nx Ny;
    try discriminate;
    fold_pos_compare;
    repeat match goal with s : bool |- _ => destruct s end;
    simpl in *; split_compare; simpl in *;
    inversion Hx; inversion Hy; subst;
    try reflexivity; try congruence; try lia.
Qed.

Lemma ltb_leb (a b : float) : F64.ltb a b = true -> F64.leb a b = true.
Proof.
  unfold F64.ltb, F64.leb, SFltb, SFleb.
  destruct (SFcompare a b) as [[]|]; congruence.
Qed.

Lemma leb_refl (a : float) : F64.is_nan a = false -> F64.leb a a = true.
Proof.
  intros H. unfold F64.leb, SFleb. now rewrite (SFcompare_refl a H).
Qed.

Lemma leb_not_nan (a b : float) :
  F64.leb a b = true -> F64.is_nan a = false /\ F64.is_nan b = false.
Proof.
  unfold F64.leb, SFleb. destruct a, b; simpl; intros H; try discriminate; auto.
Qed.

Lemma leb_trans (a b c : float) :
  F64.leb a b = true -> F64.leb b c = true -> F64.leb a c = true.
Proof.
  unfold F64.leb, SFleb. intros Hab Hbc.
  destruct (SFcompare a b) as [x|] eqn:Ex; try discriminate.
  destruct (SFcompare b c) as [y|] eqn:Ey; try discriminate.
  assert (Nx : x <> Gt) by (destruct x; congruence).
  assert (Ny : y <> Gt) by (destruct y; congruence).
  rewrite (SFcompare_trans a b c x y Ex Ey Nx Ny).
  destruct x, y; congruence.
Qed.

Lemma ltb_leb_trans (a b c : float) :
  F64.ltb a b = true -> F64.leb b c = true -> F64.ltb a c = true.
Proof.
  unfold F64.ltb, F64.leb, SFltb, SFleb. intros Hab Hbc.
  destruct (SFcompare a b) as [x|] eqn:Ex; try discriminate.
  destruct (SFcompare b c) as [y|] eqn:Ey; try discriminate.
  assert (Nx : x <> Gt) by (destruct x; congruence).
  assert (Ny : y <> Gt) by (destruct y; congruence).
  rewrite (SFcompare_trans a b c x y Ex Ey Nx Ny).
  destruct x, y; congruence.
Qed.

(** On numbers, [not (a <= b)] is [a > b]. *)
Lemma leb_false_gtb (a b : float) :
  F64.is_nan a = false -> F64.is_nan b = false ->
  F64.leb a b = false -> F64.gtb a b = true.
Proof.
  intros Ha Hb. unfold F64.leb, F64.gtb, SFleb, SFltb.
  rewrite (SFcompare_antisym a b).
  destruct (SFcompare_defined a b Ha Hb) as [c ->].
  destruct c; simpl; congruence.
Qed.

Lemma ltb_false_leb (a b : float) :
  F64.is_nan a = false -> F64.is_nan b = false ->
  F64.ltb a b = false -> F64.leb b a = true.
Proof.
  intros Ha Hb. unfold F64.leb, F64.ltb, SFleb, SFltb.
  rewrite (SFcompare_antisym a b).
  destruct (SFcompare_defined a b Ha Hb) as [c ->].
  destruct c; simpl; congruence.
Qed.

Lemma ltb_not_nan (a b : float) :
  F64.ltb a b = true -> F64.is_nan a = false /\ F64.is_nan b = false.
Proof.
  intros H. apply leb_not_nan. now apply ltb_leb.
Qed.

(** [a <= b] excludes [a > b]. *)
Lemma leb_gtb_false (a b : float) :
  F64.leb a b = true -> F64.gtb a b = false.
Proof.
  unfold F64.leb, F64.gtb, SFleb, SFltb.
  rewrite (SFcompare_antisym a b).
  destruct (SFcompare a b) as [[]|]; simpl; congruence.
Qed.

End FloatOrder.

(** ** Rounding of [x + 0.1] *)

Section FloatRounding.

Lemma digits2_pos_bounds (p : positive) :
  2 ^ (Zpos (digits2_pos p) - 1) <= Zpos p < 2 ^ Zpos (digits2_pos p).
Proof.
  induction p as [p IH|p IH|]; cbn [digits2_pos].
  - rewrite Pos2Z.inj_succ. replace (Z.succ (Zpos (digits2_pos p)) - 1) with (Zpos (digits2_pos p)) by lia.
    rewrite Z.pow_succ_r by lia.
    replace (2 ^ Zpos (digits2_pos p)) with (2 * 2 ^ (Zpos (digits2_pos p) - 1)) at 1
      by (rewrite <- Z.pow_succ_r by lia; f_equal; lia).
    lia.
  - rewrite Pos2Z.inj_succ. replace (Z.succ (Zpos (digits2_pos p)) - 1) with (Zpos (digits2_pos p)) by lia.
    rewrite Z.pow_succ_r by lia.
    replace (2 ^ Zpos (digits2_pos p)) with (2 * 2 ^ (Zpos (digits2_pos p) - 1)) at 1
      by (rewrite <- Z.pow_succ_r by lia; f_equal; lia).
    lia.
  - cbn. lia.
Qed.

Lemma digits2_pos_unique (p : positive) (d : Z) :
  2 ^ (d - 1) <= Zpos p < 2 ^ d -> Zpos (digits2_pos p) = d.
Proof.
  intros [Hlo Hhi]. pose proof (digits2_pos_bounds p) as [Blo Bhi].
  set (d' := Zpos (digits2_pos p)) in *.
  assert (0 < d) by (destruct (Z.ltb_spec 0 d) as [|N]; [assumption|];
                     rewrite (Z.pow_neg_r 2 d) in Hhi by (destruct (Z.eq_dec d 0); [subst; cbn in Hhi|]; lia); lia).
  destruct (Z.lt_trichotomy d' d) as [L|[E|G]]; [|exact E|].
  - assert (2 ^ d' <= 2 ^ (d - 1)) by (apply Z.pow_le_mono_r; lia). lia.
  - assert (2 ^ d <= 2 ^ (d' - 1)) by (apply Z.pow_le_mono_r; lia). lia.
Qed.

Lemma shr_1_m (mrs : shr_record) :
  0 <= shr_m mrs -> shr_m (shr_1 mrs) = shr_m mrs / 2.
Proof.
  destruct mrs as [m r s]. cbn [shr_m]. intros Hm.
  destruct m as [|[p|p|]|p]; cbn [shr_1 shr_m]; try lia.
  - reflexivity.
  - rewrite Pos2Z.inj_xI. apply Z.div_unique with (r := 1); lia.
  - rewrite Pos2Z.inj_xO. apply Z.div_unique with (r := 0); lia.
  - reflexivity.
Qed.

Lemma iter_shr_1_m (n : positive) (mrs : shr_record) :
  0 <= shr_m mrs -> shr_m (iter_pos shr_1 n mrs) = shr_m mrs / 2 ^ Zpos n.
Proof.
  revert mrs. induction n as [n IH|n IH|]; intros mrs Hm; cbn [iter_pos].
  - assert (H1 : 0 <= shr_m (shr_1 mrs)) by (rewrite shr_1_m by lia; apply Z.div_pos; lia).
    assert (H2 : 0 <= shr_m (iter_pos shr_1 n (shr_1 mrs)))
      by (rewrite IH by lia; apply Z.div_pos; [lia|apply Z.pow_pos_nonneg; lia]).
    rewrite IH, IH, shr_1_m by lia.
    rewrite !Z.div_div by (try apply Z.pow_pos_nonneg; lia).
    f_equal. rewrite (Pos2Z.inj_xI n).
    replace (2 * Zpos n + 1) with (1 + Zpos n + Zpos n) by lia.
    rewrite !Z.pow_add_r by lia. rewrite Z.pow_1_r. lia.
  - assert (H2 : 0 <= shr_m (iter_pos shr_1 n mrs))
      by (rewrite IH by lia; apply Z.div_pos; [lia|apply Z.pow_pos_nonneg; lia]).
    rewrite IH, IH by lia.
    rewrite !Z.div_div by (try apply Z.pow_pos_nonneg; lia).
    f_equal. rewrite (Pos2Z.inj_xO n).
    replace (2 * Zpos n) with (Zpos n + Zpos n) by lia.
    rewrite !Z.pow_add_r by lia. lia.
  - rewrite shr_1_m by lia. reflexivity.
Qed.

Lemma round_nearest_even_cases (m : Z) (l : location) :
  round_nearest_even m l = m \/ round_nearest_even m l = m + 1.
Proof.
  destruct l as [|[]]; cbn; auto. destruct (Z.even m); auto.
Qed.

Lemma fexp_normal (d e : Z) :
  53 <= d -> -1074 <= e -> fexp F64.prec F64.emax (d + e) - e = d - 53.
Proof. unfold fexp, emin, F64.prec, F64.emax. lia. Qed.

Lemma shr_exact_m (m e n : Z) :
  0 <= m -> 0 <= n ->
  shr_m (fst (shr (shr_record_of_loc m loc_Exact) e n)) = m / 2 ^ n /\
  snd (shr (shr_record_of_loc m loc_Exact) e n) = e + n.
Proof.
  intros Hm Hn. destruct n as [|p|p]; cbn [shr fst snd shr_record_of_loc]; try lia.
  - cbn [shr_m]. rewrite Z.pow_0_r, Z.div_1_r. lia.
  - rewrite iter_shr_1_m by (cbn; lia). cbn [shr_m]. auto.
Qed.

(** Rounding a mantissa of at least 53 bits: the result is +oo or a
    positive float whose exponent and mantissa are bounded below. *)
Lemma binary_round_aux_lower (s : positive) (ez : Z) :
  let d := Zpos (digits2_pos s) in
  53 <= d -> -1074 <= ez ->
  let r := binary_round_aux F64.prec F64.emax false (Zpos s) ez loc_Exact in
  r = S754_infinity false \/
  exists m e, r = S754_finite false m e /\
              (ez + (d - 53) < e \/ (e = ez + (d - 53) /\ Zpos s / 2 ^ (d - 53) <= Zpos m)).
Proof.
  intros d Hd Hez r.
  assert (Hr : r = binary_round_aux F64.prec F64.emax false (Zpos s) ez loc_Exact) by reflexivity.
  clearbody r. unfold binary_round_aux in Hr.
  unfold shr_fexp at 1 in Hr. cbn [Zdigits2] in Hr. fold d in Hr.
  rewrite (fexp_normal d ez Hd Hez) in Hr.
  destruct (shr_exact_m (Zpos s) ez (d - 53)) as [Hq He]; [lia|lia|].
  destruct (shr (shr_record_of_loc (Zpos s) loc_Exact) ez (d - 53)) as [mrs' e'].
  cbn [fst snd] in Hq, He. subst e'.
  set (q := Zpos s / 2 ^ (d - 53)) in *.
  pose proof (digits2_pos_bounds s) as [Blo Bhi]. fold d in Blo, Bhi.
  assert (P : 0 < 2 ^ (d - 53)) by (apply Z.pow_pos_nonneg; lia).
  assert (Hqlo : 2 ^ 52 <= q).
  { apply Z.div_le_lower_bound; [exact P|].
    rewrite <- Z.pow_add_r by lia. replace (d - 53 + 52) with (d - 1) by lia. exact Blo. }
  assert (Hqhi : q < 2 ^ 53).
  { apply Z.div_lt_upper_bound; [exact P|].
    rewrite <- Z.pow_add_r by lia. replace (d - 53 + 53) with d by lia. exact Bhi. }
  rewrite Hq in Hr.
  set (m1 := round_nearest_even q (loc_of_shr_record mrs')) in Hr.
  assert (Hm1 : m1 = q \/ m1 = q + 1) by apply round_nearest_even_cases.
  clearbody m1.
  destruct m1 as [|p1|p1]; try lia.
  unfold shr_fexp in Hr. cbn [Zdigits2] in Hr.
  destruct (Z.ltb_spec (Zpos p1) (2 ^ 53)) as [Lt|Ge].
  - assert (D1 : Zpos (digits2_pos p1) = 53)
      by (apply digits2_pos_unique; replace (53 - 1) with 52 by lia; lia).
    rewrite D1, (fexp_normal 53 (ez + (d - 53))) in Hr by lia.
    change (53 - 53) with 0 in Hr. cbn [shr shr_m shr_record_of_loc] in Hr.
    destruct (Z.leb (ez + (d - 53)) (F64.emax - F64.prec)).
    + right. exists p1, (ez + (d - 53)). split; [exact Hr|]. right. lia.
    + now left.
  - assert (E1 : Zpos p1 = 2 ^ 53) by lia.
    assert (D1 : Zpos (digits2_pos p1) = 54)
      by (apply digits2_pos_unique; replace (54 - 1) with 53 by lia; rewrite E1;
          split; [lia|apply Z.pow_lt_mono_r; lia]).
    rewrite D1, (fexp_normal 54 (ez + (d - 53))) in Hr by lia.
    change (54 - 53) with 1 in Hr. cbn [shr iter_pos shr_record_of_loc] in Hr.
    assert (Hh : shr_m (shr_1 {| shr_m := Zpos p1; shr_r := false; shr_s := false |}) = 2 ^ 52).
    { rewrite shr_1_m by (cbn; lia). cbn [shr_m]. rewrite E1. reflexivity. }
    rewrite Hh in Hr. change (2 ^ 52) with (Zpos (2 ^ 52)%positive) in Hr.
    cbv iota in Hr.
    destruct (Z.leb (ez + (d - 53) + 1) (F64.emax - F64.prec)).
    + right. eexists. eexists. split; [exact Hr|]. left. lia.
    + now left.
Qed.

Lemma iter_xO (m p : positive) : Zpos (Pos.iter xO m p) = Zpos m * 2 ^ Zpos p.
Proof.
  induction p as [|p IH] using Pos.peano_ind.
  - cbn. lia.
  - rewrite Pos.iter_succ, Pos2Z.inj_xO, IH, Pos2Z.inj_succ, Z.pow_succ_r by lia. lia.
Qed.

Lemma shl_align_fst (m : positive) (e e' : Z) :
  e' <= e -> Zpos (fst (shl_align m e e')) = Zpos m * 2 ^ (e - e').
Proof.
  intros H. unfold shl_align. destruct (e' - e) as [|p|p] eqn:E; cbn [fst].
  - replace (e - e') with 0 by lia. cbn. lia.
  - lia.
  - rewrite iter_xO. f_equal. f_equal. lia.
Qed.

Lemma shl_align_noop (m : positive) (e e' : Z) :
  e <= e' -> shl_align m e e' = (m, e).
Proof.
  intros H. unfold shl_align. destruct (e' - e) as [|p|p] eqn:E; try reflexivity. lia.
Qed.

Lemma ltb_finite_pos (mx m : positive) (ex e : Z) :
  ex < e \/ (ex = e /\ Zpos mx < Zpos m) ->
  SFltb (S754_finite false mx ex) (S754_finite false m e) = true.
Proof.
  intros H. unfold SFltb, SFcompare.
  change (Pos.compare_cont Eq mx m) with (Pos.compare mx m).
  destruct (Z.compare_spec ex e); [|reflexivity|lia].
  destruct (Pos.compare_spec mx m); [lia|reflexivity|lia].
Qed.

(** The number of bits of a positive integer that is at least [2^n]. *)
Lemma digits2_pos_lower (s : positive) (n : Z) :
  0 <= n -> 2 ^ n <= Zpos s -> n + 1 <= Zpos (digits2_pos s).
Proof.
  intros Hn H. pose proof (digits2_pos_bounds s) as [_ Bhi].
  destruct (Z.le_gt_cases (n + 1) (Zpos (digits2_pos s))) as [|G]; [assumption|].
  assert (2 ^ Zpos (digits2_pos s) <= 2 ^ n) by (apply Z.pow_le_mono_r; lia). lia.
Qed.

(** Rounding a sum of at least 53 bits. *)
Lemma binary_normalize_lower (s : positive) (ez : Z) :
  let d := Zpos (digits2_pos s) in
  53 <= d -> -1074 <= ez ->
  let r := binary_normalize F64.prec F64.emax (Zpos s) ez false in
  r = S754_infinity false \/
  exists m e, r = S754_finite false m e /\
              (ez + (d - 53) < e \/ (e = ez + (d - 53) /\ Zpos s / 2 ^ (d - 53) <= Zpos m)).
Proof.
  intros d Hd Hez. cbn [binary_normalize]. unfold binary_round.
  rewrite shl_align_noop by (fold d; unfold fexp, emin, F64.prec, F64.emax; lia).
  now apply binary_round_aux_lower.
Qed.

(** Below 2^49 the doubles are less than 0.1 apart: adding 0.1 to a
    timestamp gives a greater double. *)
Lemma add_tenth_gt (x : float) :
  timestamp x = true -> F64.ltb x (F64.add x f0_1) = true.
Proof.
  unfold F64.ltb, F64.add.
  destruct x as [s| | |[] mx ex]; try discriminate.
  - intros _. destruct s; reflexivity.
  - unfold timestamp, valid_binary, bounded, canonical_mantissa.
    intros H. apply andb_prop in H. destruct H as [H Hlt].
    apply andb_prop in H. destruct H as [Hc _].
    apply Z.eqb_eq in Hc. apply Z.leb_le in Hlt.
    unfold fexp, emin, F64.prec, F64.emax in Hc.
    set (dm := Zpos (digits2_pos mx)) in *.
    pose proof (digits2_pos_bounds mx) as [Mlo Mhi]. fold dm in Mlo, Mhi.
    unfold f0_1. cbn [SFadd].
    destruct (Z.le_gt_cases (-56) ex) as [Hge|Hlt'].
    + (* the exponent of 0.1 is the smaller one *)
      rewrite Z.min_r by lia.
      assert (Hdm : dm = 53) by lia.
      rewrite (shl_align_noop 7205759403792794 (-56) (-56)) by lia. cbn [fst cond_Zopp].
      pose proof (shl_align_fst mx ex (-56) ltac:(lia)) as Hs.
      set (a := fst (shl_align mx ex (-56))) in *.
      change (Zpos a + Zpos 7205759403792794) with (Zpos (a + 7205759403792794)).
      set (sm := (a + 7205759403792794)%positive).
      assert (Hsm : Zpos sm = Zpos mx * 2 ^ (ex + 56) + 7205759403792794)
        by (subst sm; rewrite Pos2Z.inj_add, Hs; f_equal; f_equal; f_equal; lia).
      assert (P : 0 < 2 ^ (ex + 56)) by (apply Z.pow_pos_nonneg; lia).
      assert (Hlow : 2 ^ (52 + (ex + 56)) <= Zpos sm).
      { rewrite Hsm, Z.pow_add_r by lia. rewrite Hdm in Mlo. change (53 - 1) with 52 in Mlo. nia. }
      pose proof (digits2_pos_lower sm (52 + (ex + 56)) ltac:(lia) Hlow) as Hd.
      destruct (binary_normalize_lower sm (-56) ltac:(lia) ltac:(lia)) as [->|[m [e [-> He]]]].
      * reflexivity.
      * apply ltb_finite_pos.
        destruct He as [He|[He Hq]]; [left; lia|].
        destruct (Z.eq_dec (Zpos (digits2_pos sm)) (53 + (ex + 56))) as [E|N]; [|left; lia].
        right. split; [lia|].
        rewrite E in Hq. replace (53 + (ex + 56) - 53) with (ex + 56) in Hq by lia.
        assert (Zpos mx + 1 <= Zpos sm / 2 ^ (ex + 56)).
        { apply Z.div_le_lower_bound; [exact P|]. rewrite Hsm.
          assert (2 ^ (ex + 56) <= 2 ^ 52) by (apply Z.pow_le_mono_r; lia).
          change (2 ^ 52) with 4503599627370496 in *. nia. }
        lia.
    + (* the exponent of x is the smaller one *)
      rewrite Z.min_l by lia.
      rewrite (shl_align_noop mx ex ex) by lia. cbn [fst cond_Zopp].
      pose proof (shl_align_fst 7205759403792794 (-56) ex ltac:(lia)) as Hs.
      set (b := fst (shl_align 7205759403792794 (-56) ex)) in *.
      change (Zpos mx + Zpos b) with (Zpos (mx + b)).
      set (sm := (mx + b)%positive).
      assert (P : 0 < 2 ^ (-56 - ex)) by (apply Z.pow_pos_nonneg; lia).
      assert (Hlow : 2 ^ (52 + (-56 - ex)) <= Zpos sm).
      { subst sm. rewrite Pos2Z.inj_add, Hs, Z.pow_add_r by lia.
        change (2 ^ 52) with 4503599627370496. nia. }
      pose proof (digits2_pos_lower sm (52 + (-56 - ex)) ltac:(lia) Hlow) as Hd.
      destruct (binary_normalize_lower sm ex ltac:(lia) ltac:(lia)) as [->|[m [e [-> He]]]].
      * reflexivity.
      * apply ltb_finite_pos. left. lia.
Qed.

End FloatRounding.

(** ** Python's [max], [min] and [l[-1]] *)

Section Builtins.

Lemma fold_pick_In (pick : float -> float -> bool) (r : list float) (x : float) :
  In (fold_left (fun cur item => if pick item cur then item else cur) r x) (x :: r).
Proof.
  revert x. induction r as [|y r IH]; intros x; simpl.
  - now left.
  - destruct (IH (if pick y x then y else x)) as [H|H].
    + rewrite <- H. destruct (pick y x); auto.
    + auto.
Qed.

Lemma max_default_In (l : list float) (d : float) :
  l <> [] -> In (Py.max_default l d) l.
Proof.
  destruct l as [|x r]; [congruence|]. intros _. apply fold_pick_In.
Qed.

Lemma min_default_In (l : list float) (d : float) :
  l <> [] -> In (Py.min_default l d) l.
Proof.
  destruct l as [|x r]; [congruence|]. intros _. apply fold_pick_In.
Qed.

Lemma filter_nil_iff {A} (f : A -> bool) (l : list A) :
  filter f l = [] <-> forall x, In x l -> f x = false.
Proof.
  induction l as [|a l IH]; simpl.
  - split; [intros _ x []|reflexivity].
  - destruct (f a) eqn:E; split.
    + discriminate.
    + intros H. specialize (H a (or_introl eq_refl)). congruence.
    + intros H x [<-|Hx]; [exact E|]. now apply IH.
    + intros H. apply IH. intros x Hx. apply H. now right.
Qed.

Lemma index_last_total {A} (l : list A) :
  l <> [] -> exists x, Py.index_last l = Ok x /\ In x l.
Proof.
  induction l as [|a [|b r] IH]; intros H.
  - congruence.
  - exists a. simpl. auto.
  - destruct IH as [x [E I]]; [discriminate|].
    exists x. split; [exact E|now right].
Qed.

Lemma max2_cases (a b : float) :
  (F64.gtb b a = true /\ Py.max2 a b = b) \/
  (F64.gtb b a = false /\ Py.max2 a b = a).
Proof.
  unfold Py.max2. destruct (F64.gtb b a); auto.
Qed.

(** In a sorted list of numbers the last element is a maximum. *)
Lemma sorted_last_is_max (l : list float) (m : float) :
  is_sorted l = true -> no_nan l = true ->
  Py.index_last l = Ok m -> is_max l m.
Proof.
  induction l as [|a [|b r] IH]; intros Hs Hn Hl.
  - discriminate.
  - inversion Hl; subst. split; [now left|].
    intros k [<-|[]]. apply leb_refl.
    simpl in Hn. now destruct (F64.is_nan m).
  - change (is_sorted (a :: b :: r)) with (F64.leb a b && is_sorted (b :: r)) in Hs.
    apply andb_prop in Hs. destruct Hs as [Hab Hs].
    change (no_nan (a :: b :: r)) with (negb (F64.is_nan a) && no_nan (b :: r)) in Hn.
    apply andb_prop in Hn. destruct Hn as [_ Hn].
    destruct (IH Hs Hn Hl) as [Hin Hmax].
    split; [now right|].
    intros k [<-|Hk]; [|now apply Hmax].
    apply (leb_trans a b m Hab). apply Hmax. now left.
Qed.

End Builtins.

(** ** The locator *)

Section Locator.

Lemma find_keyframe_before_or_equal_spec (K : list float) (s : float) :
  keyframe_le_or_zero K s (find_keyframe_before_or_equal K s).
Proof.
  unfold find_keyframe_before_or_equal, keyframe_le_or_zero.
  destruct (filter (fun kf => F64.leb kf s) K) as [|x r] eqn:E.
  - right. split; [|reflexivity]. now apply filter_nil_iff.
  - left. rewrite <- E.
    apply (proj1 (filter_In (fun kf => F64.leb kf s) _ K)).
    apply max_default_In. rewrite E. discriminate.
Qed.

Lemma find_keyframe_after_or_equal_total (K : list float) (t : float) :
  exists v, find_keyframe_after_or_equal K t = Ok v.
Proof.
  unfold find_keyframe_after_or_equal.
  destruct K as [|a K]; simpl Py.truthy; cbv iota.
  - eexists. reflexivity.
  - destruct (index_last_total (a :: K)) as [x [-> _]]; [discriminate|].
    eexists. reflexivity.
Qed.

Lemma find_keyframe_after_or_equal_spec (K : list float) (e : float) :
  K <> [] -> no_nan K = true -> is_sorted K = true ->
  exists raw, find_keyframe_after_or_equal K e = Ok raw /\
              keyframe_ge_or_max K e raw.
Proof.
  intros Hne Hn Hs. unfold find_keyframe_after_or_equal, keyframe_ge_or_max.
  destruct (index_last_total K Hne) as [m [Em Im]].
  destruct K as [|a K']; [congruence|]. simpl Py.truthy. cbv iota.
  rewrite Em. cbn [rbind].
  destruct (filter (fun kf => F64.geb kf e) (a :: K')) as [|x r] eqn:E.
  - exists m. split; [reflexivity|]. right. split.
    + now apply filter_nil_iff.
    + now apply sorted_last_is_max.
  - eexists. split; [reflexivity|]. left. rewrite <- E.
    apply (proj1 (filter_In (fun kf => F64.geb kf e) _ (a :: K'))).
    apply min_default_In. rewrite E. discriminate.
Qed.

Lemma locate_total (K : list float) (s e : float) :
  exists r, locate K s e = Ok r.
Proof.
  unfold locate. destruct K as [|a K]; simpl Py.truthy; cbv iota.
  - eexists. reflexivity.
  - destruct (find_keyframe_after_or_equal_total (a :: K) e) as [v ->].
    eexists. reflexivity.
Qed.

(** The shape of the result on a non-empty sequence. *)
Lemma locate_nonempty (K : list float) (s e raw : float) :
  K <> [] -> find_keyframe_after_or_equal K e = Ok raw ->
  let start_kf := find_keyframe_before_or_equal K s in
  let end_kf := if F64.leb raw start_kf
                then Py.max2 e (F64.add start_kf f0_1) else raw in
  locate K s e =
    Ok (mkAligned start_kf end_kf (Py.max2 f0_1 (F64.sub end_kf start_kf))).
Proof.
  intros Hne Hraw. unfold locate.
  destruct K as [|a K]; [congruence|]. simpl Py.truthy. cbv iota.
  rewrite Hraw. reflexivity.
Qed.

Lemma find_keyframe_after_or_equal_In (K : list float) (e : float) :
  K <> [] -> exists raw, find_keyframe_after_or_equal K e = Ok raw /\ In raw K.
Proof.
  intros Hne. unfold find_keyframe_after_or_equal.
  destruct (index_last_total K Hne) as [m [Em Im]].
  destruct K as [|a K']; [congruence|]. simpl Py.truthy. cbv iota.
  rewrite Em. cbn [rbind]. eexists. split; [reflexivity|].
  destruct (filter (fun kf => F64.geb kf e) (a :: K')) as [|x r] eqn:E.
  - exact Im.
  - rewrite <- E.
    apply (proj1 (filter_In (fun kf => F64.geb kf e) _ (a :: K'))).
    apply min_default_In. rewrite E. discriminate.
Qed.

Lemma find_keyframe_before_or_equal_not_nan (K : list float) (s : float) :
  no_nan K = true -> F64.is_nan (find_keyframe_before_or_equal K s) = false.
Proof.
  intros Hn. destruct (find_keyframe_before_or_equal_spec K s) as [[I _]|[_ ->]].
  - unfold no_nan in Hn. rewrite forallb_forall in Hn.
    specialize (Hn _ I). now destruct (F64.is_nan _).
  - reflexivity.
Qed.

Lemma locate_duration (K : list float) (s e : float) (r : AlignedRange) :
  locate K s e = Ok r ->
  ar_duration r = Py.max2 f0_1 (F64.sub (ar_end r) (ar_start r)).
Proof.
  unfold locate. destruct K as [|a K]; simpl Py.truthy; cbv iota.
  - cbn. intros H. inversion H. reflexivity.
  - destruct (find_keyframe_after_or_equal (a :: K) e) as [v|x]; cbn.
    + intros H. inversion H. reflexivity.
    + discriminate.
Qed.

(** [max(0.1, x) >= 0.1], whatever [x] is, NaN included. *)
Lemma max2_floor (x : float) : F64.geb (Py.max2 f0_1 x) f0_1 = true.
Proof.
  unfold Py.max2, F64.geb, F64.gtb. destruct (SFltb f0_1 x) eqn:E.
  - now apply ltb_leb.
  - reflexivity.
Qed.

End Locator.

(** *** The aligned end *)

(** C1, as stated, fails: a request past the last keyframe gives
    [start_kf = end_kf = 6.0]; main then sets [end_kf = max(8.0, 6.1) = 8.0],
    which is no keyframe. *)
Lemma locate_end_beyond_last_keyframe :
  keyframes_every_2s <> [] /\ is_sorted keyframes_every_2s = true /\
  F64.leb f7_0 f8_0 = true /\
  locate keyframes_every_2s f7_0 f8_0 = Ok (mkAligned f6_0 f8_0 f2_0) /\
  ~ aligned_end_is_keyframe keyframes_every_2s f7_0 f8_0.
Proof.
  split; [discriminate|]. split; [reflexivity|]. split; [reflexivity|].
  split; [reflexivity|].
  intros [r [Hr Hk]]. vm_compute in Hr. inversion Hr; subst r; clear Hr.
  cbn [ar_end] in Hk.
  assert (Hnot : ~ In f8_0 keyframes_every_2s).
  { cbn. intros [H|[H|[H|[H|[]]]]]; discriminate H. }
  destruct Hk as [[I _]|[_ [I _]]]; exact (Hnot I).
Qed.

(** C1 (amended): for a non-empty sorted sequence of numbers and [s <= e],
    the end found by [find_keyframe_after_or_equal] is an element of K that
    is [>= e], or the maximum of K if there is none; [main] keeps it as the
    aligned end unless [end_kf <= start_kf], and then replaces it by
    [max(e, start_kf + 0.1)]. *)
Theorem locate_end_keyframe_or_bumped (K : list float) (s e : float) :
  K <> [] -> no_nan K = true -> is_sorted K = true -> F64.leb s e = true ->
  exists raw r,
    find_keyframe_after_or_equal K e = Ok raw /\
    keyframe_ge_or_max K e raw /\
    locate K s e = Ok r /\
    ar_end r = if F64.leb raw (ar_start r)
               then Py.max2 e (F64.add (ar_start r) f0_1)
               else raw.
Proof.
  intros Hne Hn Hs _.
  destruct (find_keyframe_after_or_equal_spec K e Hne Hn Hs) as [raw [Eraw Hraw]].
  exists raw. eexists. split; [exact Eraw|]. split; [exact Hraw|].
  split; [exact (locate_nonempty K s e raw Hne Eraw)|reflexivity].
Qed.

Lemma locate_end_keyframe_or_bumped_witness :
  exists raw r,
    find_keyframe_after_or_equal keyframes_sparse f1_05 = Ok raw /\
    keyframe_ge_or_max keyframes_sparse f1_05 raw /\
    locate keyframes_sparse f1_0 f1_05 = Ok r /\
    ar_end r = if F64.leb raw (ar_start r)
               then Py.max2 f1_05 (F64.add (ar_start r) f0_1)
               else raw.
Proof.
  apply (locate_end_keyframe_or_bumped keyframes_sparse f1_0 f1_05).
  - discriminate.
  - reflexivity.
  - reflexivity.
  - reflexivity.
Defined.

(** *** End after start *)

(** C2, as stated, fails on the empty sequence: the request (5.0, 3.0) is
    passed through, and the duration floor does not touch [end_kf]. *)
Lemma locate_empty_end_before_start :
  locate [] f5_0 f3_0 = Ok (mkAligned f5_0 f3_0 f0_1) /\
  ~ end_after_start [] f5_0 f3_0.
Proof.
  split; [reflexivity|].
  intros [r [Hr Hgt]]. vm_compute in Hr. inversion Hr; subst r.
  vm_compute in Hgt. discriminate Hgt.
Qed.

(** [end > start] holds on a sequence of numbers and an end [e] that is a
    number when, for the empty sequence, [s < e], and, for a non-empty one,
    [start_kf + 0.1] is a double greater than [start_kf]. *)
Lemma end_after_start_when_bump_grows (K : list float) (s e : float) :
  no_nan K = true -> F64.is_nan e = false ->
  (K = [] -> F64.ltb s e = true) ->
  (K <> [] ->
   let start_kf := find_keyframe_before_or_equal K s in
   F64.ltb start_kf (F64.add start_kf f0_1) = true) ->
  end_after_start K s e.
Proof.
  intros Hn He Hempty Hadd. unfold end_after_start.
  destruct K as [|a K'] eqn:EK.
  - eexists. split; [reflexivity|]. cbn [ar_end ar_start].
    now apply Hempty.
  - rewrite <- EK in *. assert (Hne : K <> []) by (rewrite EK; discriminate).
    specialize (Hadd Hne). cbv zeta in Hadd.
    destruct (find_keyframe_after_or_equal_In K e Hne) as [raw [Eraw Iraw]].
    eexists. split; [exact (locate_nonempty K s e raw Hne Eraw)|].
    cbn [ar_end ar_start].
    set (st := find_keyframe_before_or_equal K s) in *.
    assert (Nst : F64.is_nan st = false)
      by (apply find_keyframe_before_or_equal_not_nan; exact Hn).
    assert (Nraw : F64.is_nan raw = false).
    { unfold no_nan in Hn. rewrite forallb_forall in Hn.
      specialize (Hn _ Iraw). now destruct (F64.is_nan raw). }
    destruct (F64.leb raw st) eqn:Ele.
    + destruct (max2_cases e (F64.add st f0_1)) as [[G ->]|[G ->]].
      * exact Hadd.
      * destruct (ltb_not_nan _ _ Hadd) as [_ Nadd].
        apply (ltb_leb_trans st (F64.add st f0_1) e Hadd).
        apply ltb_false_leb; assumption.
    + now apply leb_false_gtb.
Qed.

Lemma timestamps_no_nan (K : list float) :
  forallb timestamp K = true -> no_nan K = true.
Proof.
  unfold no_nan. rewrite !forallb_forall. intros H x Hx.
  specialize (H x Hx). now destruct x.
Qed.

Lemma find_keyframe_before_or_equal_timestamp (K : list float) (s : float) :
  forallb timestamp K = true ->
  timestamp (find_keyframe_before_or_equal K s) = true.
Proof.
  intros H. destruct (find_keyframe_before_or_equal_spec K s) as [[I _]|[_ ->]].
  - rewrite forallb_forall in H. now apply H.
  - reflexivity.
Qed.

(** C2 (amended): for every sequence K of timestamps (valid non-negative
    doubles below 2^49) and every requested range whose end is not NaN, the
    aligned range satisfies [end > start], provided [s < e] when K is
    empty. *)
Theorem locate_end_after_start (K : list float) (s e : float) :
  forallb timestamp K = true -> F64.is_nan e = false ->
  (K = [] -> F64.ltb s e = true) ->
  end_after_start K s e.
Proof.
  intros HK He Hempty.
  apply end_after_start_when_bump_grows.
  - now apply timestamps_no_nan.
  - exact He.
  - exact Hempty.
  - intros _. cbv zeta. apply add_tenth_gt.
    now apply find_keyframe_before_or_equal_timestamp.
Qed.

Lemma locate_end_after_start_witness :
  end_after_start [f5_0] f5_0 f5_0.
Proof.
  apply (locate_end_after_start [f5_0] f5_0 f5_0).
  - reflexivity.
  - reflexivity.
  - discriminate.
Defined.

(** The side conditions are needed: a NaN end survives the correction, and
    0.1 is absorbed by a start of 2^53. *)
Lemma locate_nan_end_not_after_start :
  ~ end_after_start [f5_0] f5_0 S754_nan.
Proof.
  intros [r [Hr Hgt]]. vm_compute in Hr. inversion Hr; subst r.
  vm_compute in Hgt. discriminate Hgt.
Qed.

Lemma locate_absorbed_bump_not_after_start :
  F64.valid f2p53 = true /\ ~ end_after_start [f2p53] f2p53 f2p53.
Proof.
  split; [reflexivity|].
  intros [r [Hr Hgt]]. vm_compute in Hr. inversion Hr; subst r.
  vm_compute in Hgt. discriminate Hgt.
Qed.

(** *** The duration floor *)

(** C3: the duration is [>= 0.1] for every keyframe sequence and every
    requested range, whatever the order of [s] and [e]. *)
Theorem locate_duration_floor (K : list float) (s e : float) :
  exists r, locate K s e = Ok r /\ F64.geb (ar_duration r) f0_1 = true.
Proof.
  destruct (locate_total K s e) as [r Hr]. exists r. split; [exact Hr|].
  rewrite (locate_duration K s e r Hr). apply max2_floor.
Qed.

(** *** The aligned start *)

(** C4: for a non-empty sorted K and [s <= e], the aligned start is an
    element of K that is [<= s], or exactly 0.0 if K has none. *)
Theorem locate_start_keyframe_or_zero (K : list float) (s e : float) :
  K <> [] -> is_sorted K = true -> F64.leb s e = true ->
  exists r, locate K s e = Ok r /\ keyframe_le_or_zero K s (ar_start r).
Proof.
  intros Hne _ _.
  destruct (find_keyframe_after_or_equal_total K e) as [raw Eraw].
  eexists. split; [exact (locate_nonempty K s e raw Hne Eraw)|].
  cbn [ar_start]. apply find_keyframe_before_or_equal_spec.
Qed.

Lemma locate_start_keyframe_or_zero_witness :
  exists r, locate keyframes_sparse f1_0 f1_05 = Ok r /\
            keyframe_le_or_zero keyframes_sparse f1_0 (ar_start r).
Proof.
  apply (locate_start_keyframe_or_zero keyframes_sparse f1_0 f1_05).
  - discriminate.
  - reflexivity.
  - reflexivity.
Defined.

(** *** No keyframes *)

(** C5: on the empty sequence the requested start and end are returned
    unchanged. *)
Theorem locate_empty_passthrough (s e : float) :
  exists r, locate [] s e = Ok r /\ ar_start r = s /\ ar_end r = e.
Proof.
  eexists. split; [reflexivity|]. split; reflexivity.
Qed.

(** *** Sparse keyframes *)

(** C7: K = [0.0, 10.0] and the request (1.0, 1.05) give start 0.0,
    end 10.0 and duration 10.0. *)
Theorem locate_sparse_scenario :
  locate keyframes_sparse f1_0 f1_05 = Ok (mkAligned f0_0 f10_0 f10_0).
Proof. vm_compute. reflexivity. Qed.

(** The other scenarios: a request inside the keyframes, no keyframes, and
    an empty request on a keyframe. *)
Example locate_scenario_inside :
  locate keyframes_every_2s (F64.of_ratio 5 2) f5_0 = Ok (mkAligned f2_0 f6_0 f4_0).
Proof. vm_compute. reflexivity. Qed.

Example locate_scenario_no_keyframes :
  locate [] f3_0 (F64.of_ratio 72 10) = Ok (mkAligned f3_0 (F64.of_ratio 72 10) (F64.of_ratio 42 10)).
Proof. vm_compute. reflexivity. Qed.

Example locate_scenario_empty_request :
  locate [f5_0] f5_0 f5_0 = Ok (mkAligned f5_0 (F64.of_ratio 51 10) f0_1).
Proof. vm_compute. reflexivity. Qed.

(** *** Totality of the end search *)

(** C10: [find_keyframe_after_or_equal] returns a value on every list and
    every [t]; [times[-1]] is reached on non-empty lists only, where it is
    defined, and on the empty list the result is [t]. *)
Theorem find_keyframe_after_or_equal_never_raises (times : list float) (t : float) :
  (exists v, find_keyframe_after_or_equal times t = Ok v) /\
  (Py.truthy times = false \/ exists d, Py.index_last times = Ok d) /\
  find_keyframe_after_or_equal [] t = Ok t.
Proof.
  split; [apply find_keyframe_after_or_equal_total|]. split.
  - destruct times as [|a r]; [now left|right].
    destruct (index_last_total (a :: r)) as [d [E _]]; [discriminate|eauto].
  - reflexivity.
Qed.



(** ** The runner *)

Section Runner.

Local Open Scope string_scope.

Lemma append_empty_r (s : string) : s ++ EmptyString = s.
Proof. induction s as [|a s IH]; simpl; [reflexivity|now rewrite IH]. Qed.

Lemma for_each_print_lines (lines : list string) (w : World) (out : list string) :
  for_each lines (fun line => print_end line EmptyString) w out = (Ok tt, (out ++ lines)%list).
Proof.
  revert out. induction lines as [|l lines IH]; intros out.
  - cbn. now rewrite app_nil_r.
  - cbn [for_each]. unfold bind at 1. unfold print_end at 1.
    rewrite IH, append_empty_r, <- app_assoc. reflexivity.
Qed.

Lemma run_cmd_spec (w : World) (cmd : list string) (out lines : list string)
                   (returncode : Z) :
  w_popen w cmd = Ok (lines, returncode) ->
  run_cmd cmd w out =
    (if Z.eqb returncode 0 then Ok tt else Raise (CalledProcessError returncode cmd),
     (out ++ cmd_banner cmd :: lines)%list).
Proof.
  intros Hp. unfold run_cmd, bind, Popen, print, print_end, cmd_banner.
  rewrite Hp. rewrite for_each_print_lines.
  rewrite <- app_assoc. cbn [app].
  destruct (Z.eqb returncode 0); reflexivity.
Qed.

End Runner.

(** C8: when the Encoder exits with a non-zero status, [run_cmd] raises
    [CalledProcessError] carrying that status and the command, and [main]
    catches it, prints the failure message last and returns normally; when
    it exits with zero, [run_cmd] returns and [main] prints the success
    message last. *)
Theorem encoder_exit_status_handling (w : World) (args : Args)
    (out lines : list string) (keyframes : list float) (returncode : Z) :
  w_isfile w (a_input args) = true ->
  srt_missing w (a_srt args) = false ->
  (forall cmd, w_prober w cmd = Ok keyframes) ->
  (forall cmd, w_popen w cmd = Ok (lines, returncode)) ->
  (forall cmd out0,
     run_cmd cmd w out0 =
       (if Z.eqb returncode 0 then Ok tt
        else Raise (CalledProcessError returncode cmd),
        out0 ++ cmd_banner cmd :: lines)) /\
  exists pre cmd,
    main args w out =
      (Ok tt,
       out ++ pre ++ cmd_banner cmd :: lines ++
       [((if Z.eqb returncode 0 then msg_done (a_output args) else msg_failed)
         ++ Str.newline)%string]).
Proof.
  intros Hin Hsrt Hprobe Hpopen. split.
  - intros cmd out0. apply run_cmd_spec. apply Hpopen.
  - destruct (locate_total keyframes (a_start args) (a_end args)) as [r Hr].
    unfold main. rewrite Hin, Hsrt. cbn [negb].
    unfold bind at 1. unfold print at 1, print_end at 1.
    unfold bind at 1. unfold get_keyframe_times at 1. rewrite Hprobe.
    unfold bind at 1.
    set (warn := if Py.truthy keyframes then ret tt else print _).
    assert (Hwarn : exists pre0, forall o, warn w o = (Ok tt, (o ++ pre0)%list)).
    { subst warn. destruct (Py.truthy keyframes).
      - exists []. intros o. unfold ret. now rewrite app_nil_r.
      - eexists [_]. intros o. reflexivity. }
    destruct Hwarn as [pre0 Hwarn]. rewrite Hwarn.
    unfold bind at 1. unfold lift at 1. rewrite Hr.
    unfold bind at 1. unfold print at 1, print_end at 1.
    unfold bind at 1. unfold print at 1, print_end at 1.
    unfold try_except_CalledProcessError.
    unfold bind at 1.
    match goal with |- context [run_cmd ?c w ?o] =>
      rewrite (run_cmd_spec w c o lines returncode (Hpopen c));
      exists ((["🔍 Scanning keyframes..." ++ Str.newline]%string ++ pre0) ++
              [("🎯 Requested: " ++ format_3f (a_start args) ++ "s → " ++
                format_3f (a_end args) ++ "s") ++ Str.newline;
               ("🎯 Keyframe-aligned: " ++ format_3f (ar_start r) ++ "s → " ++
                format_3f (ar_end r) ++ "s (Duration: " ++
                format_3f (ar_duration r) ++ "s)") ++ Str.newline]%string);
      exists c
    end.
    destruct (Z.eqb returncode 0).
    + unfold print, print_end. f_equal.
      repeat rewrite <- app_assoc. reflexivity.
    + unfold print, print_end. f_equal.
      repeat rewrite <- app_assoc. reflexivity.
Qed.

Lemma encoder_exit_status_handling_witness :
  exists pre cmd,
    main demo_args (posix_world "/home/u"%string keyframes_sparse ["boom"%string] 1) [] =
      (Ok tt, [] ++ pre ++ cmd_banner cmd :: ["boom"%string] ++
              [(msg_failed ++ Str.newline)%string]).
Proof.
  apply (encoder_exit_status_handling
           (posix_world "/home/u"%string keyframes_sparse ["boom"%string] 1)
           demo_args [] ["boom"%string] keyframes_sparse 1).
  - reflexivity.
  - reflexivity.
  - intros cmd. reflexivity.
  - intros cmd. reflexivity.
Defined.

(** ** Path escaping *)

Section Escaping.

Local Open Scope string_scope.

Lemma letter_not_colon (c : ascii) : is_letter c = true -> Ascii.eqb c colon = false.
Proof.
  destruct c as [[] [] [] [] [] [] [] []]; intros H; try reflexivity;
    vm_compute in H; discriminate H.
Qed.

(** When the absolute, forward-slash form starts with a letter and a colon,
    that colon, and no other character, is escaped. *)
Lemma fix_path_for_ffmpeg_drive_letter (abspath : string -> string)
    (path : string) (c : ascii) (rest : string) :
  Str.replace backslash "/" (abspath path) = String c (String colon rest) ->
  is_letter c = true ->
  fix_path_for_ffmpeg abspath path = String c ("\:" ++ rest).
Proof.
  intros Habs Hc. unfold fix_path_for_ffmpeg. rewrite Habs.
  unfold Str.slice. cbn [Nat.sub substring Str.contains].
  rewrite Ascii.eqb_refl. cbn [orb Str.replace_first].
  rewrite (letter_not_colon c Hc), Ascii.eqb_refl. reflexivity.
Qed.

(** On Windows [abspath] leaves [D:\clips\a.srt] as it is. *)
Example fix_path_for_ffmpeg_drive_D :
  fix_path_for_ffmpeg (fun p => p) "D:\clips\a.srt" = "D\:/clips/a.srt".
Proof.
  apply (fix_path_for_ffmpeg_drive_letter (fun p => p) "D:\clips\a.srt"
           "D"%char "/clips/a.srt"); reflexivity.
Qed.

(** When neither the second nor the third character of the absolute form is
    a colon, nothing is escaped. *)
Lemma fix_path_for_ffmpeg_no_colon_ahead (abspath : string -> string) (path : string) :
  Str.contains colon (Str.slice 1 3 (Str.replace backslash "/" (abspath path))) = false ->
  fix_path_for_ffmpeg abspath path = Str.replace backslash "/" (abspath path).
Proof.
  intros H. unfold fix_path_for_ffmpeg. now rewrite H.
Qed.

Example fix_path_for_ffmpeg_home_user (cwd : string) :
  fix_path_for_ffmpeg (PosixPath.abspath cwd) "/home/user/a.srt" = "/home/user/a.srt".
Proof. reflexivity. Qed.

End Escaping.

(** C6, second half, at [/a:b.srt]: the absolute form is the path itself
    and starts with a slash, not with a drive letter, and yet its colon is
    escaped, because the test looks at the third character too. *)
Theorem fix_path_for_ffmpeg_escapes_without_drive_letter :
  PosixPath.isabs "/a:b.srt" = true /\
  Str.replace backslash "/" (PosixPath.abspath "/home/user" "/a:b.srt") = "/a:b.srt"%string /\
  fix_path_for_ffmpeg (PosixPath.abspath "/home/user") "/a:b.srt" = "/a\:b.srt"%string /\
  fix_path_for_ffmpeg (PosixPath.abspath "/home/user") "/a:b.srt" <> "/a:b.srt"%string.
Proof.
  split; [reflexivity|]. split; [reflexivity|]. split; [reflexivity|].
  vm_compute. discriminate.
Qed.

(** ** The command builder *)

(** C9, as stated, fails: the same arguments give two argument lists in two
    working directories, through [os.path.abspath]. *)
Lemma build_ffmpeg_command_depends_on_cwd :
  build_ffmpeg_command (PosixPath.abspath "/home/u") "in.mp4" (Some "a.srt"%string)
                       f0_0 f10_0 "out.mp4" 18 "veryfast"
  <> build_ffmpeg_command (PosixPath.abspath "/tmp") "in.mp4" (Some "a.srt"%string)
                          f0_0 f10_0 "out.mp4" 18 "veryfast".
Proof. vm_compute. discriminate. Qed.

Lemma video_filter_ext (abspath1 abspath2 : string -> string) (srt_path : option string) :
  (forall p, srt_path = Some p -> abspath1 p = abspath2 p) ->
  video_filter abspath1 srt_path = video_filter abspath2 srt_path.
Proof.
  intros Hsrt. unfold video_filter, fix_path_for_ffmpeg.
  destruct srt_path as [p|]; [|reflexivity].
  now rewrite (Hsrt p eq_refl).
Qed.

(** C9 (amended): the argument list, filter chain included, is determined
    by the arguments and by what [os.path.abspath] answers for the input,
    subtitle and output paths: two calls with identical arguments give
    identical lists whenever [abspath] agrees on these paths. *)
Theorem build_ffmpeg_command_deterministic (abspath1 abspath2 : string -> string)
    (input_path : string) (srt_path : option string) (start_kf duration : float)
    (output_path : string) (crf : Z) (preset : string) :
  abspath1 input_path = abspath2 input_path ->
  abspath1 output_path = abspath2 output_path ->
  (forall p, srt_path = Some p -> abspath1 p = abspath2 p) ->
  build_ffmpeg_command abspath1 input_path srt_path start_kf duration output_path crf preset
  = build_ffmpeg_command abspath2 input_path srt_path start_kf duration output_path crf preset.
Proof.
  intros Hin Hout Hsrt. unfold build_ffmpeg_command.
  rewrite Hin, Hout, (video_filter_ext abspath1 abspath2 srt_path Hsrt).
  reflexivity.
Qed.

Lemma build_ffmpeg_command_deterministic_witness :
  build_ffmpeg_command (PosixPath.abspath "/home/u") "/v/in.mp4" (Some "/v/a.srt"%string)
                       f0_0 f10_0 "/v/out.mp4" 18 "veryfast"
  = build_ffmpeg_command (PosixPath.abspath "/tmp") "/v/in.mp4" (Some "/v/a.srt"%string)
                         f0_0 f10_0 "/v/out.mp4" 18 "veryfast".
Proof.
  apply (build_ffmpeg_command_deterministic
           (PosixPath.abspath "/home/u") (PosixPath.abspath "/tmp")).
  - reflexivity.
  - reflexivity.
  - intros p H. inversion H. reflexivity.
Defined.

(** On POSIX an absolute path is normalised without the working directory,
    so that the argument list built from absolute paths is the same in
    every directory. *)
Lemma posix_abspath_absolute (cwd1 cwd2 path : string) :
  PosixPath.isabs path = true ->
  PosixPath.abspath cwd1 path = PosixPath.abspath cwd2 path.
Proof.
  intros H. unfold PosixPath.abspath. now rewrite H.
Qed.

Lemma build_ffmpeg_command_absolute_paths (cwd1 cwd2 : string)
    (input_path : string) (srt_path : option string) (start_kf duration : float)
    (output_path : string) (crf : Z) (preset : string) :
  PosixPath.isabs input_path = true ->
  PosixPath.isabs output_path = true ->
  (forall p, srt_path = Some p -> PosixPath.isabs p = true) ->
  build_ffmpeg_command (PosixPath.abspath cwd1) input_path srt_path start_kf duration
                       output_path crf preset
  = build_ffmpeg_command (PosixPath.abspath cwd2) input_path srt_path start_kf duration
                         output_path crf preset.
Proof.
  intros Hin Hout Hsrt. unfold build_ffmpeg_command.
  rewrite (posix_abspath_absolute cwd1 cwd2 input_path Hin).
  rewrite (posix_abspath_absolute cwd1 cwd2 output_path Hout).
  rewrite (video_filter_ext (PosixPath.abspath cwd1) (PosixPath.abspath cwd2) srt_path).
  - reflexivity.
  - intros p Hp. apply posix_abspath_absolute. now apply Hsrt.
Qed.

(** * Further properties of the code *)

(** ** The locator picks the nearest keyframes *)

Section Nearest.

Lemma no_nan_cons (x : float) (r : list float) :
  no_nan (x :: r) = true <-> F64.is_nan x = false /\ no_nan r = true.
Proof.
  unfold no_nan. cbn [forallb]. rewrite andb_true_iff, negb_true_iff. reflexivity.
Qed.

(** The running maximum of [max] dominates everything it has seen, on
    numbers. *)
Lemma fold_max_upper_bound (r : list float) (x y : float) :
  no_nan (x :: r) = true -> In y (x :: r) ->
  F64.leb y (fold_left (fun cur item => if F64.gtb item cur then item else cur) r x) = true.
Proof.
  revert x y. induction r as [|a r IH]; intros x y Hn Hy.
  - destruct Hy as [<-|[]]. apply leb_refl. now apply no_nan_cons in Hn.
  - cbn [fold_left].
    apply no_nan_cons in Hn. destruct Hn as [Nx Hn].
    apply no_nan_cons in Hn. destruct Hn as [Na Nr].
    set (x' := if F64.gtb a x then a else x).
    assert (Nx' : no_nan (x' :: r) = true).
    { apply no_nan_cons. subst x'. destruct (F64.gtb a x); auto. }
    assert (Hx : F64.leb x x' = true).
    { subst x'. destruct (F64.gtb a x) eqn:G; [now apply ltb_leb|now apply leb_refl]. }
    assert (Ha : F64.leb a x' = true).
    { subst x'. destruct (F64.gtb a x) eqn:G; [now apply leb_refl|].
      now apply ltb_false_leb. }
    destruct Hy as [<-|[<-|Hy]].
    + apply (leb_trans x x' _ Hx). apply IH; [exact Nx'|now left].
    + apply (leb_trans a x' _ Ha). apply IH; [exact Nx'|now left].
    + apply IH; [exact Nx'|now right].
Qed.

(** The running minimum of [min] is below everything it has seen. *)
Lemma fold_min_lower_bound (r : list float) (x y : float) :
  no_nan (x :: r) = true -> In y (x :: r) ->
  F64.leb (fold_left (fun cur item => if F64.ltb item cur then item else cur) r x) y = true.
Proof.
  revert x y. induction r as [|a r IH]; intros x y Hn Hy.
  - destruct Hy as [<-|[]]. apply leb_refl. now apply no_nan_cons in Hn.
  - cbn [fold_left].
    apply no_nan_cons in Hn. destruct Hn as [Nx Hn].
    apply no_nan_cons in Hn. destruct Hn as [Na Nr].
    set (x' := if F64.ltb a x then a else x).
    assert (Nx' : no_nan (x' :: r) = true).
    { apply no_nan_cons. subst x'. destruct (F64.ltb a x); auto. }
    assert (Hx : F64.leb x' x = true).
    { subst x'. destruct (F64.ltb a x) eqn:G; [now apply ltb_leb|now apply leb_refl]. }
    assert (Ha : F64.leb x' a = true).
    { subst x'. destruct (F64.ltb a x) eqn:G; [now apply leb_refl|].
      now apply ltb_false_leb. }
    destruct Hy as [<-|[<-|Hy]].
    + apply (fun H => leb_trans _ x' x H Hx). apply IH; [exact Nx'|now left].
    + apply (fun H => leb_trans _ x' a H Ha). apply IH; [exact Nx'|now left].
    + apply IH; [exact Nx'|now right].
Qed.

(** What passes a comparison with [t] is a number. *)
Lemma filter_leb_no_nan (K : list float) (t : float) :
  no_nan (filter (fun kf => F64.leb kf t) K) = true.
Proof.
  unfold no_nan. apply forallb_forall. intros x Hx.
  apply filter_In in Hx. destruct Hx as [_ Hx].
  destruct (leb_not_nan _ _ Hx) as [-> _]. reflexivity.
Qed.

Lemma filter_geb_no_nan (K : list float) (t : float) :
  no_nan (filter (fun kf => F64.geb kf t) K) = true.
Proof.
  unfold no_nan. apply forallb_forall. intros x Hx.
  apply filter_In in Hx. destruct Hx as [_ Hx].
  destruct (leb_not_nan _ _ Hx) as [_ ->]. reflexivity.
Qed.

Lemma before_or_equal_bounds (K : list float) (t k : float) :
  In k K -> F64.leb k t = true ->
  In (find_keyframe_before_or_equal K t) K /\
  F64.leb (find_keyframe_before_or_equal K t) t = true /\
  F64.leb k (find_keyframe_before_or_equal K t) = true.
Proof.
  intros Hk Hle.
  assert (Hf : In k (filter (fun kf => F64.leb kf t) K))
    by (apply filter_In; auto).
  pose proof (filter_leb_no_nan K t) as Hn.
  unfold find_keyframe_before_or_equal.
  destruct (filter (fun kf => F64.leb kf t) K) as [|x r] eqn:E; [destruct Hf|].
  assert (Hin : In (Py.max_default (x :: r) f0_0) (x :: r))
    by (apply max_default_In; discriminate).
  rewrite <- E in Hin at 2. apply filter_In in Hin. destruct Hin as [H1 H2].
  split; [exact H1|]. split; [exact H2|].
  cbn [Py.max_default]. now apply fold_max_upper_bound.
Qed.

Lemma after_or_equal_bounds (K : list float) (t k : float) :
  In k K -> F64.geb k t = true ->
  exists v, find_keyframe_after_or_equal K t = Ok v /\
            In v K /\ F64.geb v t = true /\ F64.leb v k = true.
Proof.
  intros Hk Hge.
  assert (Hne : K <> []) by (destruct K; [destruct Hk|discriminate]).
  assert (Hf : In k (filter (fun kf => F64.geb kf t) K))
    by (apply filter_In; auto).
  pose proof (filter_geb_no_nan K t) as Hn.
  unfold find_keyframe_after_or_equal.
  destruct (index_last_total K Hne) as [m [Em _]].
  destruct K as [|a K']; [congruence|]. simpl Py.truthy. cbv iota.
  rewrite Em. cbn [rbind].
  destruct (filter (fun kf => F64.geb kf t) (a :: K')) as [|x r] eqn:E; [destruct Hf|].
  eexists. split; [reflexivity|].
  assert (Hin : In (Py.min_default (x :: r) m) (x :: r))
    by (apply min_default_In; discriminate).
  rewrite <- E in Hin at 2. apply filter_In in Hin. destruct Hin as [H1 H2].
  split; [exact H1|]. split; [exact H2|].
  cbn [Py.min_default]. now apply fold_min_lower_bound.
Qed.

End Nearest.

(** X1: when some keyframe is [<= t], [find_keyframe_before_or_equal]
    returns a keyframe that is [<= t] and that no keyframe [<= t]
    exceeds, on every list, sorted or not. *)
Theorem find_keyframe_before_or_equal_greatest (K : list float) (t k : float) :
  In k K -> F64.leb k t = true ->
  In (find_keyframe_before_or_equal K t) K /\
  F64.leb (find_keyframe_before_or_equal K t) t = true /\
  forall k', In k' K -> F64.leb k' t = true ->
             F64.leb k' (find_keyframe_before_or_equal K t) = true.
Proof.
  intros Hk Hle.
  destruct (before_or_equal_bounds K t k Hk Hle) as [H1 [H2 _]].
  split; [exact H1|]. split; [exact H2|].
  intros k' Hk' Hle'. now apply (before_or_equal_bounds K t k').
Qed.

Lemma find_keyframe_before_or_equal_greatest_witness :
  In (find_keyframe_before_or_equal [f4_0; f0_0; f6_0; f2_0] f5_0) [f4_0; f0_0; f6_0; f2_0] /\
  F64.leb (find_keyframe_before_or_equal [f4_0; f0_0; f6_0; f2_0] f5_0) f5_0 = true /\
  forall k', In k' [f4_0; f0_0; f6_0; f2_0] -> F64.leb k' f5_0 = true ->
             F64.leb k' (find_keyframe_before_or_equal [f4_0; f0_0; f6_0; f2_0] f5_0) = true.
Proof.
  apply (find_keyframe_before_or_equal_greatest [f4_0; f0_0; f6_0; f2_0] f5_0 f0_0).
  - cbn. auto.
  - reflexivity.
Defined.

(** X2: when some keyframe is [>= t], [find_keyframe_after_or_equal]
    returns a keyframe that is [>= t] and that is below every keyframe
    [>= t], on every list, sorted or not. *)
Theorem find_keyframe_after_or_equal_smallest (K : list float) (t k : float) :
  In k K -> F64.geb k t = true ->
  exists v, find_keyframe_after_or_equal K t = Ok v /\
            In v K /\ F64.geb v t = true /\
            forall k', In k' K -> F64.geb k' t = true -> F64.leb v k' = true.
Proof.
  intros Hk Hge.
  destruct (after_or_equal_bounds K t k Hk Hge) as [v [Ev [H1 [H2 _]]]].
  exists v. split; [exact Ev|]. split; [exact H1|]. split; [exact H2|].
  intros k' Hk' Hge'.
  destruct (after_or_equal_bounds K t k' Hk' Hge') as [v' [Ev' [_ [_ H3]]]].
  rewrite Ev in Ev'. inversion Ev'. subst v'. exact H3.
Qed.

Lemma find_keyframe_after_or_equal_smallest_witness :
  exists v, find_keyframe_after_or_equal [f4_0; f0_0; f6_0; f2_0] f3_0 = Ok v /\
            In v [f4_0; f0_0; f6_0; f2_0] /\ F64.geb v f3_0 = true /\
            forall k', In k' [f4_0; f0_0; f6_0; f2_0] -> F64.geb k' f3_0 = true ->
                       F64.leb v k' = true.
Proof.
  apply (find_keyframe_after_or_equal_smallest [f4_0; f0_0; f6_0; f2_0] f3_0 f6_0).
  - cbn. auto.
  - reflexivity.
Defined.

(** ** The aligned range and the requested range *)

Section Covering.

Lemma max2_ge_first (a b : float) :
  F64.is_nan a = false -> F64.leb a (Py.max2 a b) = true.
Proof.
  intros Na. destruct (max2_cases a b) as [[G ->]|[_ ->]].
  - now apply ltb_leb.
  - now apply leb_refl.
Qed.

Lemma ltb_leb_false (a b : float) : F64.ltb a b = true -> F64.leb b a = false.
Proof.
  intros H. destruct (F64.leb b a) eqn:E; [|reflexivity].
  pose proof (leb_gtb_false b a E) as G. unfold F64.gtb in G.
  unfold F64.ltb in H. congruence.
Qed.

Lemma leb_ltb_trans (a b c : float) :
  F64.leb a b = true -> F64.ltb b c = true -> F64.ltb a c = true.
Proof.
  unfold F64.ltb, F64.leb, SFltb, SFleb. intros Hab Hbc.
  destruct (SFcompare a b) as [x|] eqn:Ex; try discriminate.
  destruct (SFcompare b c) as [y|] eqn:Ey; try discriminate.
  assert (Nx : x <> Gt) by (destruct x; congruence).
  assert (Ny : y <> Gt) by (destruct y; congruence).
  rewrite (SFcompare_trans a b c x y Ex Ey Nx Ny).
  destruct x, y; congruence.
Qed.

(** The start found is at most [s] as soon as [s] is not negative: it is a
    keyframe [<= s] or the fallback 0.0. *)
Lemma before_or_equal_le (K : list float) (s : float) :
  F64.leb f0_0 s = true -> F64.leb (find_keyframe_before_or_equal K s) s = true.
Proof.
  intros H0. destruct (find_keyframe_before_or_equal_spec K s) as [[_ H]|[_ ->]];
    assumption.
Qed.

End Covering.

(** X3: for a requested start [s >= 0.0] the aligned start is never after
    [s], whatever the keyframes are: it is a keyframe [<= s], the fallback
    0.0, or [s] itself when there are no keyframes. *)
Theorem locate_start_not_after_request (K : list float) (s e : float) :
  F64.leb f0_0 s = true ->
  exists r, locate K s e = Ok r /\ F64.leb (ar_start r) s = true.
Proof.
  intros H0. destruct K as [|a K'] eqn:EK.
  - eexists. split; [reflexivity|]. cbn [ar_start].
    apply leb_refl. now destruct (leb_not_nan _ _ H0).
  - rewrite <- EK. assert (Hne : K <> []) by (rewrite EK; discriminate).
    destruct (find_keyframe_after_or_equal_total K e) as [raw Eraw].
    eexists. split; [exact (locate_nonempty K s e raw Hne Eraw)|].
    cbn [ar_start]. now apply before_or_equal_le.
Qed.

Lemma locate_start_not_after_request_witness :
  exists r, locate keyframes_every_2s f7_0 f8_0 = Ok r /\ F64.leb (ar_start r) f7_0 = true.
Proof.
  apply (locate_start_not_after_request keyframes_every_2s f7_0 f8_0).
  reflexivity.
Defined.

(** X4: when some keyframe is [>= e], the aligned end is never before [e]:
    it is the smallest such keyframe, or, after the correction of an end
    that does not exceed the start, [max(e, start_kf + 0.1)]. *)
Theorem locate_end_not_before_request (K : list float) (s e k : float) :
  In k K -> F64.geb k e = true ->
  exists r, locate K s e = Ok r /\ F64.geb (ar_end r) e = true.
Proof.
  intros Hk Hge.
  assert (Hne : K <> []) by (destruct K; [destruct Hk|discriminate]).
  destruct (after_or_equal_bounds K e k Hk Hge) as [raw [Eraw [_ [Hraw _]]]].
  eexists. split; [exact (locate_nonempty K s e raw Hne Eraw)|].
  cbn [ar_end]. destruct (F64.leb raw (find_keyframe_before_or_equal K s)).
  - unfold F64.geb. apply max2_ge_first.
    unfold F64.geb in Hge. now destruct (leb_not_nan _ _ Hge).
  - exact Hraw.
Qed.

Lemma locate_end_not_before_request_witness :
  exists r, locate [f5_0] f5_0 f5_0 = Ok r /\ F64.geb (ar_end r) f5_0 = true.
Proof.
  apply (locate_end_not_before_request [f5_0] f5_0 f5_0 f5_0).
  - now left.
  - reflexivity.
Defined.

(** X5: when no keyframe is [>= e] and the last keyframe [m] is after the
    requested start [s >= 0.0], the aligned end is [m] itself and falls
    short of [e]: the end is clamped to the last keyframe, not
    extrapolated. *)
Theorem locate_end_clamped_to_last (K : list float) (s e m : float) :
  Py.index_last K = Ok m ->
  F64.leb f0_0 s = true -> F64.ltb s m = true -> F64.is_nan e = false ->
  (forall k, In k K -> F64.geb k e = false) ->
  exists r, locate K s e = Ok r /\ ar_end r = m /\ F64.ltb (ar_end r) e = true.
Proof.
  intros Hm H0 Hsm Ne Hnone.
  assert (Hne : K <> []) by (destruct K; [discriminate|discriminate]).
  assert (Hin : In m K).
  { destruct (index_last_total K Hne) as [m' [E I]]. rewrite Hm in E.
    inversion E. now subst m'. }
  assert (Eraw : find_keyframe_after_or_equal K e = Ok m).
  { unfold find_keyframe_after_or_equal.
    destruct K as [|a K']; [congruence|]. simpl Py.truthy. cbv iota.
    rewrite Hm. cbn [rbind].
    rewrite (proj2 (filter_nil_iff (fun kf => F64.geb kf e) (a :: K')) Hnone).
    reflexivity. }
  eexists. split; [exact (locate_nonempty K s e m Hne Eraw)|].
  cbn [ar_end].
  assert (Hst : F64.ltb (find_keyframe_before_or_equal K s) m = true)
    by (apply (leb_ltb_trans _ s m); [now apply before_or_equal_le|exact Hsm]).
  rewrite (ltb_leb_false _ _ Hst). split; [reflexivity|].
  specialize (Hnone m Hin). unfold F64.geb in Hnone.
  apply leb_false_gtb in Hnone; [exact Hnone|exact Ne|].
  now destruct (ltb_not_nan _ _ Hsm).
Qed.

Lemma locate_end_clamped_to_last_witness :
  exists r, locate keyframes_every_2s f5_0 f8_0 = Ok r /\ ar_end r = f6_0 /\
            F64.ltb (ar_end r) f8_0 = true.
Proof.
  apply (locate_end_clamped_to_last keyframes_every_2s f5_0 f8_0 f6_0).
  - reflexivity.
  - reflexivity.
  - reflexivity.
  - reflexivity.
  - intros k [<-|[<-|[<-|[<-|[]]]]]; reflexivity.
Defined.

(** X6: a request whose start and end are keyframes, with [s < e], is not
    widened: the aligned start equals [s] and the aligned end equals [e] as
    numbers, and the correction of the end does not fire. *)
Theorem locate_on_keyframes (K : list float) (s e : float) :
  In s K -> In e K -> F64.ltb s e = true ->
  exists r, locate K s e = Ok r /\
            F64.leb (ar_start r) s = true /\ F64.leb s (ar_start r) = true /\
            F64.leb (ar_end r) e = true /\ F64.leb e (ar_end r) = true.
Proof.
  intros Hs He Hlt.
  destruct (ltb_not_nan _ _ Hlt) as [Ns Ne].
  assert (Hne : K <> []) by (destruct K; [destruct Hs|discriminate]).
  destruct (before_or_equal_bounds K s s Hs (leb_refl s Ns)) as [_ [Hst1 Hst2]].
  destruct (after_or_equal_bounds K e e He (leb_refl e Ne)) as [raw [Eraw [_ [Hr1 Hr2]]]].
  eexists. split; [exact (locate_nonempty K s e raw Hne Eraw)|].
  cbn [ar_start ar_end].
  assert (Hgap : F64.ltb (find_keyframe_before_or_equal K s) raw = true).
  { apply (leb_ltb_trans _ s raw Hst1). now apply (ltb_leb_trans s e raw). }
  rewrite (ltb_leb_false _ _ Hgap). auto.
Qed.

Lemma locate_on_keyframes_witness :
  exists r, locate keyframes_every_2s f2_0 f6_0 = Ok r /\
            F64.leb (ar_start r) f2_0 = true /\ F64.leb f2_0 (ar_start r) = true /\
            F64.leb (ar_end r) f6_0 = true /\ F64.leb f6_0 (ar_end r) = true.
Proof.
  apply (locate_on_keyframes keyframes_every_2s f2_0 f6_0).
  - cbn. auto.
  - cbn. auto.
  - reflexivity.
Defined.

(** ** Paths in the argument list *)

Section PathEscaping.

Local Open Scope string_scope.

Lemma contains_append (c : ascii) (a b : string) :
  Str.contains c (a ++ b) = Str.contains c a || Str.contains c b.
Proof.
  induction a as [|x a IH]; cbn [append Str.contains]; [reflexivity|].
  rewrite IH. now rewrite orb_assoc.
Qed.

Lemma replace_removes (old : ascii) (new s : string) :
  Str.contains old new = false -> Str.contains old (Str.replace old new s) = false.
Proof.
  intros Hnew. induction s as [|a s IH]; cbn [Str.replace Str.contains]; [reflexivity|].
  destruct (Ascii.eqb a old) eqn:E.
  - now rewrite contains_append, Hnew, IH.
  - cbn [Str.contains]. now rewrite E, IH.
Qed.

Lemma forward_slashes_no_backslash (s : string) :
  Str.contains backslash (Str.replace backslash "/" s) = false.
Proof. apply replace_removes. reflexivity. Qed.

Lemma replace_first_absent (old : ascii) (new s : string) :
  Str.contains old s = false -> Str.replace_first old new s = s.
Proof.
  induction s as [|a s IH]; cbn [Str.replace_first Str.contains]; [reflexivity|].
  intros H. apply orb_false_elim in H. destruct H as [E H].
  now rewrite E, IH.
Qed.

(** Deleting the first backslash undoes the escaping of the first colon. *)
Lemma escape_first_colon_undone (s : string) :
  Str.contains backslash s = false ->
  Str.replace_first backslash EmptyString (Str.replace_first colon "\:" s) = s.
Proof.
  induction s as [|a s IH]; cbn [Str.replace_first Str.contains]; [reflexivity|].
  intros H. apply orb_false_elim in H. destruct H as [Eb H].
  destruct (Ascii.eqb a colon) eqn:Ec.
  - apply Ascii.eqb_eq in Ec. subst a. reflexivity.
  - cbn [Str.replace_first]. now rewrite Eb, IH.
Qed.

Lemma count_char_append (c : ascii) (a b : string) :
  count_char c (a ++ b) = (count_char c a + count_char c b)%nat.
Proof.
  induction a as [|x a IH]; cbn [append count_char]; [reflexivity|].
  rewrite IH. lia.
Qed.

Lemma count_char_absent (c : ascii) (s : string) :
  Str.contains c s = false -> count_char c s = 0%nat.
Proof.
  induction s as [|a s IH]; cbn [count_char Str.contains]; [reflexivity|].
  intros H. apply orb_false_elim in H. destruct H as [E H].
  now rewrite E, IH.
Qed.

Lemma count_backslash_escape_first_colon (s : string) :
  (count_char backslash (Str.replace_first colon "\:" s) <= count_char backslash s + 1)%nat.
Proof.
  induction s as [|a s IH]; cbn [Str.replace_first count_char]; [lia|].
  destruct (Ascii.eqb a colon) eqn:Ec.
  - apply Ascii.eqb_eq in Ec. subst a. cbn. lia.
  - cbn [count_char]. lia.
Qed.

Lemma count_colon_escape_first_colon (s : string) :
  count_char colon (Str.replace_first colon "\:" s) = count_char colon s.
Proof.
  induction s as [|a s IH]; cbn [Str.replace_first count_char]; [reflexivity|].
  destruct (Ascii.eqb a colon) eqn:Ec.
  - apply Ascii.eqb_eq in Ec. subst a. reflexivity.
  - cbn [count_char]. now rewrite Ec, IH.
Qed.

End PathEscaping.

(** X7: the input and output paths that [build_ffmpeg_command] hands to the
    encoder (the argument after [-i] and the last argument) contain no
    backslash, whatever [os.path.abspath] returns. *)
Theorem build_ffmpeg_command_paths_without_backslash
    (abspath : string -> string) (input_path : string) (srt_path : option string)
    (start_kf duration : float) (output_path : string) (crf : Z) (preset : string) :
  nth 4 (build_ffmpeg_command abspath input_path srt_path start_kf duration
           output_path crf preset) EmptyString = "-i"%string /\
  Str.contains backslash
    (nth 5 (build_ffmpeg_command abspath input_path srt_path start_kf duration
              output_path crf preset) EmptyString) = false /\
  Str.contains backslash
    (last (build_ffmpeg_command abspath input_path srt_path start_kf duration
             output_path crf preset) EmptyString) = false.
Proof.
  split; [reflexivity|]. split.
  - cbn [build_ffmpeg_command nth]. apply forward_slashes_no_backslash.
  - unfold build_ffmpeg_command. cbn [last]. apply forward_slashes_no_backslash.
Qed.

(** X8: the escaping of [fix_path_for_ffmpeg] is undone by deleting the
    first backslash of its result: what comes back is the absolute,
    forward-slash form of the path. *)
Theorem fix_path_for_ffmpeg_unescape (abspath : string -> string) (path : string) :
  Str.replace_first backslash EmptyString (fix_path_for_ffmpeg abspath path)
  = Str.replace backslash "/" (abspath path).
Proof.
  unfold fix_path_for_ffmpeg.
  pose proof (forward_slashes_no_backslash (abspath path)) as Hb.
  destruct (Str.contains colon (Str.slice 1 3 (Str.replace backslash "/" (abspath path)))).
  - now apply escape_first_colon_undone.
  - now apply replace_first_absent.
Qed.

(** X9: [fix_path_for_ffmpeg] escapes at most one colon: its result holds
    at most one backslash and as many colons as the absolute form, so that
    every colon after the first one stays unescaped. *)
Theorem fix_path_for_ffmpeg_escapes_at_most_one (abspath : string -> string) (path : string) :
  (count_char backslash (fix_path_for_ffmpeg abspath path) <= 1)%nat /\
  count_char colon (fix_path_for_ffmpeg abspath path)
  = count_char colon (Str.replace backslash "/" (abspath path)).
Proof.
  unfold fix_path_for_ffmpeg.
  pose proof (count_char_absent _ _ (forward_slashes_no_backslash (abspath path))) as Hb.
  destruct (Str.contains colon (Str.slice 1 3 (Str.replace backslash "/" (abspath path)))).
  - split.
    + pose proof (count_backslash_escape_first_colon
                    (Str.replace backslash "/" (abspath path))). lia.
    + apply count_colon_escape_first_colon.
  - split; [lia|reflexivity].
Qed.

Example fix_path_for_ffmpeg_second_colon :
  fix_path_for_ffmpeg (fun p => p) "D:\clips\a:b.srt" = "D\:/clips/a:b.srt"%string.
Proof. reflexivity. Qed.

(** ** The exits of [main] *)

Section MainExits.

Local Open Scope string_scope.



End MainExits.

(** X10: when the input file does not exist, [main] raises [SystemExit]
    with the input-not-found message before anything is printed, whatever
    the subtitle argument, the Prober and the Encoder are. *)
Theorem main_input_not_found (w : World) (args : Args) (out : list string) :
  w_isfile w (a_input args) = false ->
  main args w out =
    (Raise (SystemExit ("❌ Input file not found: " ++ a_input args)%string), out).
Proof.
  intros H. unfold main. rewrite H. reflexivity.
Qed.

Lemma main_input_not_found_witness :
  main demo_args (mkWorld (PosixPath.abspath "/home/u") (fun _ => false)
                          (fun _ => Ok []) (fun _ => Ok ([], 0))) [] =
    (Raise (SystemExit ("❌ Input file not found: " ++ a_input demo_args)%string), []).
Proof.
  apply (main_input_not_found
           (mkWorld (PosixPath.abspath "/home/u") (fun _ => false)
                    (fun _ => Ok []) (fun _ => Ok ([], 0))) demo_args []).
  reflexivity.
Defined.

(** X11: when the input exists and a non-empty [--srt] path does not,
    [main] raises [SystemExit] with the SRT-not-found message before
    anything is printed. *)
Theorem main_srt_not_found (w : World) (args : Args) (out : list string) (p : string) :
  w_isfile w (a_input args) = true ->
  a_srt args = Some p -> Str.truthy p = true -> w_isfile w p = false ->
  main args w out =
    (Raise (SystemExit ("❌ SRT file not found: " ++ p)%string), out).
Proof.
  intros Hin Hp Ht Hf. unfold main, srt_missing. rewrite Hin, Hp, Ht, Hf.
  reflexivity.
Qed.

Lemma main_srt_not_found_witness :
  main demo_args (mkWorld (PosixPath.abspath "/home/u") (String.eqb "in.mp4")
                          (fun _ => Ok []) (fun _ => Ok ([], 0))) [] =
    (Raise (SystemExit ("❌ SRT file not found: " ++ "a.srt")%string), []).
Proof.
  apply (main_srt_not_found
           (mkWorld (PosixPath.abspath "/home/u") (String.eqb "in.mp4")
                    (fun _ => Ok []) (fun _ => Ok ([], 0))) demo_args [] "a.srt").
  - reflexivity.
  - reflexivity.
  - reflexivity.
  - reflexivity.
Defined.

(** X12: an empty [--srt] argument is no subtitle file: it is not looked
    for on disk, no [subtitles] filter is built, and [main] behaves as
    without [--srt], in every world. *)
Theorem main_empty_srt_is_no_srt (w : World) (args : Args) (out : list string) :
  main (with_srt args (Some EmptyString)) w out = main (with_srt args None) w out.
Proof.
  unfold main, with_srt. cbn [a_input a_srt a_start a_end a_output srt_missing Str.truthy andb].
  destruct (w_isfile w (a_input args)); reflexivity.
Qed.

(** X13: an exception of the Prober leaves [main] as it is, a
    [CalledProcessError] of ffprobe included: [get_keyframe_times] runs
    outside the [try] block.  Only the scanning line has been printed. *)
Theorem main_prober_failure_propagates (w : World) (args : Args) (out : list string)
                                       (e : exn) :
  w_isfile w (a_input args) = true ->
  srt_missing w (a_srt args) = false ->
  w_prober w [ "ffprobe"; "-v"; "quiet"; "-select_streams"; "v";
               "-show_entries"; "frame=pkt_pts_time,key_frame"; "-of"; "json";
               Str.replace backslash "/" (w_abspath w (a_input args)) ]%string
    = Raise e ->
  main args w out =
    (Raise e, out ++ [("🔍 Scanning keyframes..." ++ Str.newline)%string]).
Proof.
  intros Hin Hsrt Hprobe. unfold main. rewrite Hin, Hsrt. cbn [negb].
  unfold bind at 1. unfold print at 1, print_end at 1.
  unfold bind at 1. unfold get_keyframe_times at 1. rewrite Hprobe.
  reflexivity.
Qed.

Lemma main_prober_failure_propagates_witness :
  main demo_args (mkWorld (PosixPath.abspath "/home/u") (fun _ => true)
                          (fun cmd => Raise (CalledProcessError 1 cmd))
                          (fun _ => Ok ([], 0))) [] =
    (Raise (CalledProcessError 1
              [ "ffprobe"; "-v"; "quiet"; "-select_streams"; "v";
                "-show_entries"; "frame=pkt_pts_time,key_frame"; "-of"; "json";
                "/home/u/in.mp4" ]%string),
     [] ++ [("🔍 Scanning keyframes..." ++ Str.newline)%string]).
Proof.
  apply (main_prober_failure_propagates
           (mkWorld (PosixPath.abspath "/home/u") (fun _ => true)
                    (fun cmd => Raise (CalledProcessError 1 cmd))
                    (fun _ => Ok ([], 0))) demo_args []).
  - reflexivity.
  - reflexivity.
  - reflexivity.
Defined.



(** ** NaN on the command line *)

(** X15: [--start nan] and [--end nan] are accepted by [float] and fall
    through every comparison: on any non-empty keyframe list the aligned
    start is the fallback 0.0 and the end search returns the last
    keyframe. *)
Theorem locate_nan_request (K : list float) (e : float) :
  K <> [] ->
  (exists r, locate K S754_nan e = Ok r /\ ar_start r = f0_0) /\
  (exists m, Py.index_last K = Ok m /\
             find_keyframe_after_or_equal K S754_nan = Ok m).
Proof.
  intros Hne. split.
  - destruct (find_keyframe_after_or_equal_total K e) as [raw Eraw].
    eexists. split; [exact (locate_nonempty K S754_nan e raw Hne Eraw)|].
    cbn [ar_start]. unfold find_keyframe_before_or_equal.
    rewrite (proj2 (filter_nil_iff (fun kf => F64.leb kf S754_nan) K)).
    + reflexivity.
    + intros x _. now destruct x.
  - destruct (index_last_total K Hne) as [m [Em _]]. exists m. split; [exact Em|].
    unfold find_keyframe_after_or_equal.
    destruct K as [|a K']; [congruence|]. simpl Py.truthy. cbv iota.
    rewrite Em. cbn [rbind].
    rewrite (proj2 (filter_nil_iff (fun kf => F64.geb kf S754_nan) (a :: K'))).
    + reflexivity.
    + intros x _. reflexivity.
Qed.

Lemma locate_nan_request_witness :
  (exists r, locate keyframes_every_2s S754_nan f5_0 = Ok r /\ ar_start r = f0_0) /\
  (exists m, Py.index_last keyframes_every_2s = Ok m /\
             find_keyframe_after_or_equal keyframes_every_2s S754_nan = Ok m).
Proof.
  apply (locate_nan_request keyframes_every_2s f5_0).
  discriminate.
Defined.
